(** * metadata/movie_dataset.py: the bundled TMDB movie dataset

    A shallow embedding of [src/metadata/movie_dataset.py] and the
    properties of its loader ([_load_dataset]), its lookup facade
    ([get_movie_by_imdb]) and its cache hook ([clear_dataset_cache]).

    Conventions.
    - A Python [str] is a [string]; each [ascii] stands for ONE code point
      below 256 (the Latin-1 range of Unicode), not for a byte of an
      encoding.  [isspace] and [lower] are CPython's tables on that range.
    - A Python [dict] is an association list in insertion order whose keys
      are pairwise distinct; [dict_set] is [d[k] = v].
    - The open file is the [csv.reader] over it: the records it yields,
      then [StopIteration] or an exception (a read, decode or CSV
      error).  The loader is embedded over any such reader; [Csv.reader]
      computes the one of a file from its text.  [csv.DictReader] is
      embedded from CPython's Lib/csv.py.
    - The process is a [world]: the file at the fixed path, the
      [lru_cache] slot of [_load_dataset] and the trace of observable
      events (file-system calls and log records). *)

From Stdlib Require Import String Ascii List Bool Arith NArith Lia.
Import ListNotations.
Local Open Scope string_scope.
Local Open Scope list_scope.

(* ================================================================== *)
(** ** Python strings: [str.strip] and [str.lower] *)

Module PyStr.

(** [Py_UNICODE_ISSPACE] on code points below 256: U+0009..U+000D,
    U+001C..U+0020, U+0085 and U+00A0. *)
Definition isspace (c : ascii) : bool :=
  let n := N_of_ascii c in
  ((9 <=? n) && (n <=? 13) || (28 <=? n) && (n <=? 32)
   || (n =? 133) || (n =? 160))%N.

(** [str.lower] on one code point below 256: A..Z, and the Latin-1
    capitals U+00C0..U+00DE except the multiplication sign U+00D7. *)
Definition lower_char (c : ascii) : ascii :=
  let n := N_of_ascii c in
  if ((65 <=? n) && (n <=? 90)
      || (192 <=? n) && (n <=? 222) && negb (n =? 215))%N
  then ascii_of_N (n + 32) else c.

Fixpoint lower (s : string) : string :=
  match s with
  | EmptyString => EmptyString
  | String c s' => String (lower_char c) (lower s')
  end.

Fixpoint lstrip (s : string) : string :=
  match s with
  | EmptyString => EmptyString
  | String c s' => if isspace c then lstrip s' else s
  end.

Fixpoint rstrip (s : string) : string :=
  match s with
  | EmptyString => EmptyString
  | String c s' =>
      match rstrip s' with
      | EmptyString => if isspace c then EmptyString else String c EmptyString
      | r => String c r
      end
  end.

(** [s.strip()] with no argument. *)
Definition strip (s : string) : string := rstrip (lstrip s).

(** Truth value of a [str]: [bool(s)]. *)
Definition truthy (s : string) : bool :=
  match s with EmptyString => false | _ => true end.

End PyStr.

(* ================================================================== *)
(** ** Python dictionaries *)

Section Dict.
Context {K V : Type} (K_eq_dec : forall x y : K, {x = y} + {x <> y}).

Definition dict := list (K * V).

(** [d.get(k)] *)
Fixpoint dict_get (d : dict) (k : K) : option V :=
  match d with
  | [] => None
  | (k', v') :: d' => if K_eq_dec k k' then Some v' else dict_get d' k
  end.

(** [d[k] = v]: an existing key keeps its position, a new key goes last. *)
Fixpoint dict_set (d : dict) (k : K) (v : V) : dict :=
  match d with
  | [] => [(k, v)]
  | (k', v') :: d' =>
      if K_eq_dec k k' then (k', v) :: d' else (k', v') :: dict_set d' k v
  end.

(** [dict(pairs)] *)
Definition dict_of_pairs (l : list (K * V)) : dict :=
  fold_left (fun d kv => dict_set d (fst kv) (snd kv)) l [].

Definition dict_keys (d : dict) : list K := map fst d.

End Dict.

Arguments dict : clear implicits.

(* ================================================================== *)
(** ** Values, rows and exceptions *)

(** What a field of a [csv.DictReader] row can hold: a string, [None]
    (the default [restval] of a short row) or a list of strings (the
    surplus fields of a long row, stored under the default [restkey]). *)
Inductive value : Type :=
| VStr (s : string)
| VNone
| VList (l : list string).

(** A row key is a column name, or [None] (the default [restkey]). *)
Definition row_key : Type := option string.

Definition Row : Type := dict row_key value.
Definition Dataset : Type := dict string Row.

Definition row_key_eq_dec : forall x y : row_key, {x = y} + {x <> y}.
Proof. decide equality; apply string_dec. Defined.

Definition row_get (r : Row) (k : row_key) : option value :=
  dict_get row_key_eq_dec r k.
Definition row_set (r : Row) (k : row_key) (v : value) : Row :=
  dict_set row_key_eq_dec r k v.
Definition dataset_get (d : Dataset) (k : string) : option Row :=
  dict_get string_dec d k.
Definition dataset_set (d : Dataset) (k : string) (r : Row) : Dataset :=
  dict_set string_dec d k r.

(** An instance of a subclass of [Exception]: its class and its text. *)
Record exn : Type := Exception { exn_class : string; exn_detail : string }.

Inductive result (A : Type) : Type :=
| Ok (a : A)
| Raise (e : exn).
Arguments Ok {A} a.
Arguments Raise {A} e.

(** [bool(v)] *)
Definition value_truthy (v : value) : bool :=
  match v with
  | VStr s => PyStr.truthy s
  | VNone => false
  | VList l => match l with [] => false | _ => true end
  end.

(** [v or ""] *)
Definition value_or_empty (v : value) : value :=
  if value_truthy v then v else VStr "".

(** [v.strip()]: only a [str] has the method. *)
Definition value_strip (v : value) : result string :=
  match v with
  | VStr s => Ok (PyStr.strip s)
  | VNone =>
      Raise (Exception "AttributeError"
               "'NoneType' object has no attribute 'strip'")
  | VList _ =>
      Raise (Exception "AttributeError"
               "'list' object has no attribute 'strip'")
  end.

(** [value.strip() if isinstance(value, str) else value] *)
Definition normalise_value (v : value) : value :=
  match v with
  | VStr s => VStr (PyStr.strip s)
  | _ => v
  end.

(** [{key: normalise_value(value) for key, value in row.items()}] *)
Definition normalise_row (row : Row) : Row :=
  fold_left (fun acc kv => row_set acc (fst kv) (normalise_value (snd kv)))
            row [].

(* ================================================================== *)
(** ** csv.reader and csv.DictReader *)

(** How the record iterator over the open file ends. *)
Inductive reader_end : Type :=
| StopIteration
| Fails (e : exn).

(** The [csv.reader] over the open file: the records it has still to
    yield (each a list of fields, [[]] for a blank line) and how it ends
    after them (end of file, or a read, decode or CSV error). *)
Record csv_reader : Type :=
  { pending : list (list string); ending : reader_end }.

(** *** The records of a text

    [csv.reader] with the default dialect ([excel]: delimiter [,],
    quote character ["034"], doubled quotes, no escape character, no
    skipping of initial spaces, not strict), after CPython's
    Modules/_csv.c, over a file opened in text mode with
    [newline=None].  The parser states that serve an escape character
    are left out, the dialect having none.  A file whose bytes do not
    decode, or whose reading fails, has no text: it is a [csv_reader]
    that ends in [Fails]. *)

Module Csv.

Definition LF : ascii := "010".
Definition CR : ascii := "013".

(** Text mode with [newline=None]: ["\r\n"] and a lone ["\r"] are read
    as ["\n"]. *)
Fixpoint universal_newlines (s : string) : string :=
  match s with
  | EmptyString => EmptyString
  | String c s' =>
      if Ascii.eqb c CR then
        match s' with
        | String c' s'' =>
            if Ascii.eqb c' LF then String LF (universal_newlines s'')
            else String LF (universal_newlines s')
        | EmptyString => String LF EmptyString
        end
      else String c (universal_newlines s')
  end.

(** Iterating over the file: the lines, each with its ["\n"] but
    possibly the last. *)
Fixpoint readlines (line : string) (s : string) : list string :=
  match s with
  | EmptyString => match line with EmptyString => [] | _ => [line] end
  | String c s' =>
      if Ascii.eqb c LF then (line ++ String c EmptyString)%string :: readlines EmptyString s'
      else readlines (line ++ String c EmptyString)%string s'
  end.

Definition field_limit : N := 131072.

Inductive ParserState : Type :=
| START_RECORD | START_FIELD | IN_FIELD | IN_QUOTED_FIELD
| QUOTE_IN_QUOTED_FIELD | EAT_CRNL.

Record ReaderObj : Type :=
  { state : ParserState;
    fields : list string;
    field : string;
    field_len : N }.

Definition set_state (st : ParserState) (self : ReaderObj) : ReaderObj :=
  {| state := st; fields := fields self; field := field self;
     field_len := field_len self |}.

Definition parse_reset : ReaderObj :=
  {| state := START_RECORD; fields := []; field := EmptyString; field_len := 0 |}.

Definition parse_save_field (self : ReaderObj) : ReaderObj :=
  {| state := state self; fields := fields self ++ [field self];
     field := EmptyString; field_len := 0 |}.

Definition parse_add_char (self : ReaderObj) (c : ascii) : result ReaderObj :=
  if (field_limit <=? field_len self)%N then
    Raise (Exception "_csv.Error" "field larger than field limit (131072)")
  else
    Ok {| state := state self; fields := fields self;
          field := (field self ++ String c EmptyString)%string;
          field_len := (field_len self + 1)%N |}.

Definition is_newline (c : ascii) : bool := Ascii.eqb c LF || Ascii.eqb c CR.
Definition delimiter : ascii := ",".
Definition quotechar : ascii := "034".

Definition then_state (st : ParserState) (r : result ReaderObj) : result ReaderObj :=
  match r with
  | Ok self => Ok (set_state st self)
  | Raise e => Raise e
  end.

(** [parse_process_char]; [None] is the end-of-line mark [EOL]. *)
Definition parse_process_char (self : ReaderObj) (c : option ascii)
  : result ReaderObj :=
  let start_field (self : ReaderObj) :=
    match c with
    | None => Ok (set_state START_RECORD (parse_save_field self))
    | Some ch =>
        if is_newline ch then Ok (set_state EAT_CRNL (parse_save_field self))
        else if Ascii.eqb ch quotechar then Ok (set_state IN_QUOTED_FIELD self)
        else if Ascii.eqb ch delimiter then Ok (parse_save_field self)
        else then_state IN_FIELD (parse_add_char self ch)
    end in
  match state self with
  | START_RECORD =>
      match c with
      | None => Ok self
      | Some ch =>
          if is_newline ch then Ok (set_state EAT_CRNL self)
          else start_field (set_state START_FIELD self)
      end
  | START_FIELD => start_field self
  | IN_FIELD =>
      match c with
      | None => Ok (set_state START_RECORD (parse_save_field self))
      | Some ch =>
          if is_newline ch then Ok (set_state EAT_CRNL (parse_save_field self))
          else if Ascii.eqb ch delimiter
               then Ok (set_state START_FIELD (parse_save_field self))
          else parse_add_char self ch
      end
  | IN_QUOTED_FIELD =>
      match c with
      | None => Ok self
      | Some ch =>
          if Ascii.eqb ch quotechar then Ok (set_state QUOTE_IN_QUOTED_FIELD self)
          else parse_add_char self ch
      end
  | QUOTE_IN_QUOTED_FIELD =>
      match c with
      | None => Ok (set_state START_RECORD (parse_save_field self))
      | Some ch =>
          if Ascii.eqb ch quotechar
          then then_state IN_QUOTED_FIELD (parse_add_char self ch)
          else if Ascii.eqb ch delimiter
               then Ok (set_state START_FIELD (parse_save_field self))
          else if is_newline ch
               then Ok (set_state EAT_CRNL (parse_save_field self))
          else then_state IN_FIELD (parse_add_char self ch)
      end
  | EAT_CRNL =>
      match c with
      | None => Ok (set_state START_RECORD self)
      | Some ch =>
          if is_newline ch then Ok self
          else Raise (Exception "_csv.Error"
                        "new-line character seen in unquoted field - do you need to open the file with newline=''?")
      end
  end.

(** The characters of one line, then [EOL]. *)
Fixpoint parse_line (self : ReaderObj) (line : string) : result ReaderObj :=
  match line with
  | EmptyString => parse_process_char self None
  | String c line' =>
      match parse_process_char self (Some c) with
      | Ok self' => parse_line self' line'
      | Raise e => Raise e
      end
  end.

(** All the calls of [Reader_iternext] over the lines of the file. *)
Fixpoint Reader_iter (lines : list string) (self : ReaderObj)
  : list (list string) * reader_end :=
  match lines with
  | [] =>
      if negb (field_len self =? 0)%N
         || match state self with IN_QUOTED_FIELD => true | _ => false end
      then ([fields (parse_save_field self)], StopIteration)
      else ([], StopIteration)
  | line :: lines' =>
      match parse_line self line with
      | Raise e => ([], Fails e)
      | Ok self' =>
          match state self' with
          | START_RECORD =>
              let '(recs, e) := Reader_iter lines' parse_reset in
              (fields self' :: recs, e)
          | _ => Reader_iter lines' self'
          end
      end
  end.

(** [csv.reader(csvfile)] over a file whose decoded text is [text]. *)
Definition reader (text : string) : csv_reader :=
  let '(recs, e) := Reader_iter (readlines EmptyString (universal_newlines text))
                                parse_reset in
  {| pending := recs; ending := e |}.

End Csv.

(** Outcome of one [next(it)]. *)
Inductive next (A : Type) : Type :=
| Yield (a : A)
| Stop
| NextRaise (e : exn).
Arguments Yield {A} a.
Arguments Stop {A}.
Arguments NextRaise {A} e.

Definition reader_end_next {A} (e : reader_end) : next A :=
  match e with
  | StopIteration => Stop
  | Fails x => NextRaise x
  end.

(** [next(reader)] *)
Definition reader_next (r : csv_reader) : next (list string) * csv_reader :=
  match pending r with
  | rec :: rest => (Yield rec, {| pending := rest; ending := ending r |})
  | [] => (reader_end_next (ending r), r)
  end.

(** [row = next(self.reader)] followed by
    [while row == []: row = next(self.reader)]. *)
Fixpoint next_nonblank (p : list (list string)) (e : reader_end)
  : next (list string) * csv_reader :=
  match p with
  | [] => (reader_end_next e, {| pending := []; ending := e |})
  | [] :: p' => next_nonblank p' e
  | rec :: p' => (Yield rec, {| pending := p'; ending := e |})
  end.

(** The state of a [csv.DictReader] built with the defaults
    ([fieldnames=None], [restkey=None], [restval=None]).  The
    [line_num] counter is left out: [DictReader] only tests it against 0,
    which holds exactly as long as no header has been asked for. *)
Record DictReader : Type :=
  { _fieldnames : option (list string); reader : csv_reader }.

(** [csv.DictReader(csvfile)] *)
Definition DictReader_init (f : csv_reader) : DictReader :=
  {| _fieldnames := None; reader := f |}.

(** The [fieldnames] property: the first record is read as the header
    when none is set yet; [StopIteration] there leaves it [None]. *)
Definition DictReader_fieldnames (self : DictReader)
  : result (option (list string)) * DictReader :=
  match _fieldnames self with
  | Some f => (Ok (Some f), self)
  | None =>
      match reader_next (reader self) with
      | (Yield hdr, r') => (Ok (Some hdr), {| _fieldnames := Some hdr; reader := r' |})
      | (Stop, r') => (Ok None, {| _fieldnames := None; reader := r' |})
      | (NextRaise e, r') => (Raise e, {| _fieldnames := None; reader := r' |})
      end
  end.

(** The [fieldnames] setter. *)
Definition DictReader_set_fieldnames (self : DictReader) (v : list string)
  : DictReader :=
  {| _fieldnames := Some v; reader := reader self |}.

(** The dictionary [DictReader.__next__] makes of one non-blank record:
    [dict(zip(fieldnames, row))], then the surplus fields under [None]
    for a long row, or [None] under each missing column of a short one. *)
Definition DictReader_row (fieldnames row : list string) : Row :=
  let d := dict_of_pairs row_key_eq_dec
             (combine (map Some fieldnames) (map VStr row)) in
  let lf := List.length fieldnames in
  let lr := List.length row in
  if (lf <? lr)%nat then row_set d None (VList (skipn lf row))
  else if (lr <? lf)%nat then
    fold_left (fun d key => row_set d (Some key) VNone) (skipn lr fieldnames) d
  else d.

(** [DictReader.__next__] *)
Definition DictReader___next__ (self : DictReader) : next Row * DictReader :=
  match DictReader_fieldnames self with
  | (Raise e, self1) => (NextRaise e, self1)
  | (Ok fn, self1) =>
      let '(n, r') := next_nonblank (pending (reader self1))
                                    (ending (reader self1)) in
      let self2 := {| _fieldnames := _fieldnames self1; reader := r' |} in
      match n with
      | Yield row =>
          match fn with
          | Some f => (Yield (DictReader_row f row), self2)
          | None =>
              (NextRaise (Exception "TypeError"
                            "'NoneType' object is not iterable"), self2)
          end
      | Stop => (Stop, self2)
      | NextRaise e => (NextRaise e, self2)
      end
  end.

(* ================================================================== *)
(** ** The loop of [_load_dataset] *)

(** [row.get("imdb_id")], with Python's [None] for an absent key. *)
Definition row_get_imdb_id (row : Row) : value :=
  match row_get row (Some "imdb_id") with
  | Some v => v
  | None => VNone
  end.

(** One pass through the body of [for row in reader:]. *)
Definition loop_body (row : Row) (records : Dataset) : result Dataset :=
  match value_strip (value_or_empty (row_get_imdb_id row)) with
  | Raise e => Raise e
  | Ok s =>
      let imdb_id := PyStr.lower s in
      if negb (PyStr.truthy imdb_id) then Ok records
      else Ok (dataset_set records imdb_id (normalise_row row))
  end.

(** [for row in reader: ...] once the header is known, by recursion on
    the records the [csv.reader] has still to yield.  A blank record is
    passed over (the [while row == []] of [__next__]); the loop ends as
    the reader ends. *)
Fixpoint for_records (fieldnames : list string) (p : list (list string))
         (e : reader_end) (records : Dataset) : result Dataset :=
  match p with
  | [] =>
      match e with
      | StopIteration => Ok records
      | Fails x => Raise x
      end
  | [] :: p' => for_records fieldnames p' e records
  | rec :: p' =>
      match loop_body (DictReader_row fieldnames rec) records with
      | Ok records' => for_records fieldnames p' e records'
      | Raise x => Raise x
      end
  end.

(** [for row in reader: ...] from any state of the [DictReader]: the
    first [__next__] reads the header when it is not set yet. *)
Definition for_row_in_reader (rd : DictReader) (records : Dataset)
  : result Dataset :=
  let r := reader rd in
  match _fieldnames rd with
  | Some f => for_records f (pending r) (ending r) records
  | None =>
      match pending r with
      | hdr :: p' => for_records hdr p' (ending r) records
      | [] =>
          match ending r with
          | StopIteration => Ok records
          | Fails x => Raise x
          end
      end
  end.

(** The body of the [with] block: header, then the loop. *)
Definition read_records (csvfile : csv_reader) : result Dataset :=
  let reader := DictReader_init csvfile in
  match DictReader_fieldnames reader with
  | (Raise e, _) => Raise e
  | (Ok fn, reader) =>
      let reader :=
        match fn with
        | Some ((_ :: _) as fields) =>
            DictReader_set_fieldnames reader (map PyStr.strip fields)
        | _ => reader
        end in
      for_row_in_reader reader []
  end.

(* ================================================================== *)
(** ** The process: file, cache, trace *)

Definition _DATASET_FILENAME : string := "TMDB_movie_dataset_v11.csv".

(** [Path(__file__).resolve().parents[1] / name] *)
Inductive path : Type :=
| ModuleParents1 (name : string).

Definition _dataset_path : path := ModuleParents1 _DATASET_FILENAME.

(** A resolved POSIX path, as [Path(__file__).resolve()] gives it: the
    names below the root, outermost first ([/a/b.py] is [["a"; "b.py"]]). *)
Definition resolved_path : Type := list string.

(** [p.parents[i]]: the ancestor [i + 1] levels up, the last one being
    the root; [IndexError] beyond it. *)
Definition Path_parents (p : resolved_path) (i : nat) : result resolved_path :=
  if (i <? List.length p)%nat
  then Ok (firstn (List.length p - S i) p)
  else Raise (Exception "IndexError" "1").

(** [p / name] for a relative [name] of one component. *)
Definition Path_truediv (p : resolved_path) (name : string) : resolved_path :=
  p ++ [name].

(** Where a [path] of the module lies when the module's resolved file
    is [module_file]. *)
Definition path_at (module_file : resolved_path) (p : path)
  : result resolved_path :=
  match p with
  | ModuleParents1 name =>
      match Path_parents module_file 1 with
      | Ok dir => Ok (Path_truediv dir name)
      | Raise e => Raise e
      end
  end.

(** [_dataset_path()] in a module whose resolved file is [module_file]. *)
Definition _dataset_path_at (module_file : resolved_path)
  : result resolved_path :=
  path_at module_file _dataset_path.

Inductive log_level : Type := DEBUG | WARNING | ERROR.

Inductive log_arg : Type :=
| ArgPath (p : path)
| ArgExc (e : exn)
| ArgInt (n : nat).

(** One call of [logging.<level>(fmt, *args, exc_info=...)]. *)
Record log_record : Type :=
  { levelname : log_level;
    msg : string;
    args : list log_arg;
    exc_info : bool }.

(** What the module does that can be seen from outside. *)
Inductive event : Type :=
| EvExists (p : path) (found : bool)
| EvOpen (p : path)
| EvLog (r : log_record).

(** The file at the fixed path. *)
Inductive file_state : Type :=
| Missing
| Unopenable (e : exn)
| Readable (c : csv_reader).

Record world : Type :=
  { disk : file_state;
    cache : option Dataset;
    trace : list event }.

Definition set_disk (f : file_state) (w : world) : world :=
  {| disk := f; cache := cache w; trace := trace w |}.
Definition set_cache (c : option Dataset) (w : world) : world :=
  {| disk := disk w; cache := c; trace := trace w |}.
Definition emit (ev : event) (w : world) : world :=
  {| disk := disk w; cache := cache w; trace := trace w ++ [ev] |}.

(** Computations that read and change the process and may raise. *)
Definition M (A : Type) : Type := world -> result A * world.

Definition ret {A} (a : A) : M A := fun w => (Ok a, w).
Definition raise {A} (e : exn) : M A := fun w => (Raise e, w).
Definition bind {A B} (m : M A) (k : A -> M B) : M B :=
  fun w =>
    match m w with
    | (Ok a, w') => k a w'
    | (Raise e, w') => (Raise e, w')
    end.
Definition lift {A} (r : result A) : M A := fun w => (r, w).

(** [try: body / except Exception as exc: handler / (then) rest] where
    the handler returns from the function. *)
Definition try_except {A B} (body : M A) (handler : exn -> M B)
           (rest : A -> M B) : M B :=
  fun w =>
    match body w with
    | (Ok a, w') => rest a w'
    | (Raise exc, w') => handler exc w'
    end.

Declare Scope py_scope.
Delimit Scope py_scope with py.
Notation "x <- m ;; k" := (bind m (fun x => k))
  (at level 61, m at next level, right associativity) : py_scope.
Notation "m ;; k" := (bind m (fun _ => k))
  (at level 61, right associativity) : py_scope.
Local Open Scope py_scope.

Definition logging (lv : log_level) (fmt : string) (a : list log_arg)
           (exc : bool) : M unit :=
  fun w =>
    (Ok tt, emit (EvLog {| levelname := lv; msg := fmt; args := a;
                           exc_info := exc |}) w).

(** [p.exists()] *)
Definition path_exists (p : path) : M bool :=
  fun w =>
    let found := match disk w with Missing => false | _ => true end in
    (Ok found, emit (EvExists p found) w).

(** [p.open("r", encoding="utf-8")], handed to [csv.reader]. *)
Definition path_open (p : path) : M csv_reader :=
  fun w =>
    let w' := emit (EvOpen p) w in
    match disk w with
    | Readable c => (Ok c, w')
    | Unopenable e => (Raise e, w')
    | Missing =>
        (Raise (Exception "FileNotFoundError" "No such file or directory"), w')
    end.

(* ================================================================== *)
(** ** The module's functions *)

(** The function under [@lru_cache(maxsize=1)]. *)
Definition _load_dataset_body : M Dataset :=
  let dataset_path := _dataset_path in
  found <- path_exists dataset_path ;;
  if negb found then
    logging WARNING "TMDB dataset not found at %s" [ArgPath dataset_path] false ;;
    ret []
  else
    try_except
      (csvfile <- path_open dataset_path ;;
       lift (read_records csvfile))
      (fun exc =>
         logging ERROR "Failed to load TMDB dataset: %s" [ArgExc exc] true ;;
         ret [])
      (fun records =>
         logging DEBUG "Loaded %d entries from TMDB dataset"
                 [ArgInt (List.length records)] false ;;
         ret records).

(** [_load_dataset()]: [lru_cache] keeps the value of the one call
    signature there is, and stores nothing when the function raises. *)
Definition _load_dataset : M Dataset :=
  fun w =>
    match cache w with
    | Some d => (Ok d, w)
    | None =>
        match _load_dataset_body w with
        | (Ok d, w') => (Ok d, set_cache (Some d) w')
        | (Raise e, w') => (Raise e, w')
        end
    end.

(** [get_movie_by_imdb(imdb_id)] *)
Definition get_movie_by_imdb (imdb_id : option string) : M (option Row) :=
  match imdb_id with
  | None => ret None
  | Some s =>
      if negb (PyStr.truthy s) then ret None
      else
        let imdb_key := PyStr.lower (PyStr.strip s) in
        if negb (PyStr.truthy imdb_key) then ret None
        else
          dataset <- _load_dataset ;;
          ret (dataset_get dataset imdb_key)
  end.

(** [clear_dataset_cache()] *)
Definition clear_dataset_cache : M unit :=
  fun w => (Ok tt, set_cache None w).

(* ================================================================== *)
(** * Vocabulary of the properties

    Definitions the statements and proofs below are written with; none
    of them is code of [movie_dataset.py]. *)

Module CsvVocabulary.
Import Csv.

(** A character that is no line break. *)
Definition plain (c : ascii) : bool := negb (is_newline c).

(** No carriage return in a text. *)
Fixpoint no_CR (s : string) : bool :=
  match s with
  | EmptyString => true
  | String c s' => negb (Ascii.eqb c CR) && no_CR s'
  end.

(** Only plain characters: a line still without its end. *)
Fixpoint body_ok (s : string) : bool :=
  match s with
  | EmptyString => true
  | String c s' => plain c && body_ok s'
  end.

(** A line as [readlines] yields it: plain characters, then at most one
    line feed. *)
Fixpoint line_ok (l : string) : bool :=
  match l with
  | EmptyString => true
  | String c l' =>
      if Ascii.eqb c LF then
        match l' with EmptyString => true | _ => false end
      else negb (Ascii.eqb c CR) && line_ok l'
  end.

(** The number of characters of some lines. *)
Definition total_length (lines : list string) : nat :=
  fold_right (fun l n => String.length l + n) 0 lines.

(** States between two characters of a line, out of a line break. *)
Definition calm (st : ParserState) : Prop := st <> EAT_CRNL.

(** States within a record. *)
Definition busy (st : ParserState) : Prop :=
  st <> EAT_CRNL /\ st <> START_RECORD.

(** States after the end-of-line mark: a record is complete, or a
    quoted field goes on in the next line. *)
Definition at_line_end (st : ParserState) : Prop :=
  st = START_RECORD \/ st = IN_QUOTED_FIELD.

End CsvVocabulary.

Module Vocabulary.
Import PyStr.

(** No white space at the front. *)
Definition no_lead (s : string) : bool :=
  match s with
  | EmptyString => true
  | String c _ => negb (isspace c)
  end.

(** Filling a dictionary from a list of pairs. *)
Definition fill {K V : Type} (K_eq_dec : forall x y : K, {x = y} + {x <> y})
           (d : dict K V) (l : list (K * V)) : dict K V :=
  fold_left (fun d kv => dict_set K_eq_dec d (fst kv) (snd kv)) l d.

(** One item of the dictionary comprehension of [normalise_row]. *)
Definition normalise_item (kv : row_key * value) : row_key * value :=
  (fst kv, normalise_value (snd kv)).

(** The key the loop computes for a row: [""] when the field is
    absent, [None] or blank. *)
Definition row_imdb_key (row : Row) : string :=
  match row_get_imdb_id row with
  | VStr s => lower (strip s)
  | _ => ""
  end.

(** What one pass of the loop does to [records] when it does not
    raise. *)
Definition store (records : Dataset) (row : Row) : Dataset :=
  if truthy (row_imdb_key row)
  then dataset_set records (row_imdb_key row) (normalise_row row)
  else records.

Definition nonblank (rec : list string) : bool :=
  match rec with [] => false | _ => true end.

(** The rows [DictReader] yields for the records after the header. *)
Definition rows_of (fieldnames : list string) (p : list (list string))
  : list Row :=
  map (DictReader_row fieldnames) (filter nonblank p).

Definition add_events (evs : list event) (w : world) : world :=
  {| disk := disk w; cache := cache w; trace := trace w ++ evs |}.

Definition warning_missing : event :=
  EvLog {| levelname := WARNING; msg := "TMDB dataset not found at %s";
           args := [ArgPath _dataset_path]; exc_info := false |}.
Definition error_failed (exc : exn) : event :=
  EvLog {| levelname := ERROR; msg := "Failed to load TMDB dataset: %s";
           args := [ArgExc exc]; exc_info := true |}.
Definition debug_loaded (n : nat) : event :=
  EvLog {| levelname := DEBUG; msg := "Loaded %d entries from TMDB dataset";
           args := [ArgInt n]; exc_info := false |}.

(** What one run of the function under the cache returns and emits,
    as a function of the file. *)
Definition load_outcome (f : file_state) : Dataset * list event :=
  match f with
  | Missing => ([], [EvExists _dataset_path false; warning_missing])
  | Unopenable e =>
      ([], [EvExists _dataset_path true; EvOpen _dataset_path;
            error_failed e])
  | Readable c =>
      match read_records c with
      | Ok d =>
          (d, [EvExists _dataset_path true; EvOpen _dataset_path;
               debug_loaded (List.length d)])
      | Raise e =>
          ([], [EvExists _dataset_path true; EvOpen _dataset_path;
                error_failed e])
      end
  end.

(** The file with a given text, and a line feed to write texts with. *)
Definition text_file (text : string) : file_state :=
  Readable (Csv.reader text).

Definition NL : string := String Csv.LF EmptyString.

(** A process in which nothing has been loaded yet. *)
Definition fresh (f : file_state) : world :=
  {| disk := f; cache := None; trace := [] |}.

(** What can happen to the process between two cache clears: a caller
    looks an identifier up, or the file at the fixed path changes. *)
Inductive action : Type :=
| Lookup (imdb_id : option string)
| DiskChange (f : file_state).

Definition step (a : action) (w : world) : world :=
  match a with
  | Lookup imdb_id => snd (get_movie_by_imdb imdb_id w)
  | DiskChange f => set_disk f w
  end.

Definition run (acts : list action) (w : world) : world :=
  fold_left (fun w a => step a w) acts w.

(** Number of times the trace shows the file being opened. *)
Fixpoint file_reads (t : list event) : nat :=
  match t with
  | [] => 0
  | EvOpen _ :: t' => S (file_reads t')
  | _ :: t' => file_reads t'
  end.

(** Number of times the trace shows the path being probed. *)
Fixpoint file_probes (t : list event) : nat :=
  match t with
  | [] => 0
  | EvExists _ _ :: t' => S (file_probes t')
  | _ :: t' => file_probes t'
  end.

(** The field [imdb_id] of the row [DictReader] makes of a record. *)
Definition imdb_field (names rec : list string) : option value :=
  row_get (DictReader_row names rec) (Some "imdb_id").

(** No record of [p] carries the identifier with key [k]. *)
Definition not_carried (names : list string) (k : string)
           (p : list (list string)) : Prop :=
  Forall (fun r => forall u, imdb_field names r = Some (VStr u) ->
                             lower (strip u) <> k) p.

(** A record whose [imdb_id] field is missing (no such column, or a
    record too short to reach it), empty or only white space. *)
Definition blank_imdb_id (names rec : list string) : Prop :=
  imdb_field names rec = None
  \/ imdb_field names rec = Some VNone
  \/ exists s, imdb_field names rec = Some (VStr s) /\ strip s = "".

(** The key a query is looked up under; [""] for [None]. *)
Definition query_key (q : option string) : string :=
  match q with
  | Some s => lower (strip s)
  | None => ""
  end.

(** The dataset a lookup in [w] reads: the memoized one, or the one the
    loader makes of the file as it is. *)
Definition dataset_seen (w : world) : Dataset :=
  match cache w with
  | Some d => d
  | None => fst (load_outcome (disk w))
  end.

(** The process after a lookup with key [k]: as before, unless the key
    is not empty and the slot is, in which case the loader has run. *)
Definition after_lookup (k : string) (w : world) : world :=
  match k, cache w with
  | String _ _, None =>
      set_cache (Some (fst (load_outcome (disk w))))
                (add_events (snd (load_outcome (disk w))) w)
  | _, _ => w
  end.

(** The processes the module can be in: started on some file with an
    empty slot and an empty trace, then any lookups, cache clears and
    changes of the file. *)
Inductive reachable : world -> Prop :=
| reachable_fresh (f : file_state) : reachable (fresh f)
| reachable_lookup (w : world) (q : option string) :
    reachable w -> reachable (snd (get_movie_by_imdb q w))
| reachable_clear (w : world) :
    reachable w -> reachable (snd (clear_dataset_cache w))
| reachable_disk (w : world) (f : file_state) :
    reachable w -> reachable (set_disk f w).


(** The non-empty keys the records of a file carry, in file order, with
    their repetitions. *)
Definition carried_keys (names : list string) (recs : list (list string))
  : list string :=
  filter truthy (map row_imdb_key (rows_of names recs)).

End Vocabulary.

(* ================================================================== *)
(** * Properties *)

Import Vocabulary.

(** ** The records of a text *)

Example reader_quoted_field :
  let Q := String Csv.quotechar EmptyString in
  Csv.reader ("imdb_id,title" ++ NL
              ++ "tt0068646," ++ Q ++ "Me, " ++ Q ++ Q ++ "you" ++ Q ++ Q ++ Q
              ++ NL)
  = {| pending := [["imdb_id"; "title"];
                   ["tt0068646"; ("Me, " ++ Q ++ "you" ++ Q)%string]];
       ending := StopIteration |}.
Proof. vm_compute. reflexivity. Qed.

Example reader_line_ends_and_blank_line :
  Csv.reader ("a,b" ++ String Csv.CR NL ++ NL ++ "c, d" ++ String Csv.CR "")
  = {| pending := [["a"; "b"]; []; ["c"; " d"]]; ending := StopIteration |}.
Proof. vm_compute. reflexivity. Qed.

Example reader_quote_open_at_end_of_file :
  let Q := String Csv.quotechar EmptyString in
  Csv.reader ("a," ++ Q ++ "b" ++ NL ++ "c")
  = {| pending := [["a"; ("b" ++ NL ++ "c")%string]];
       ending := StopIteration |}.
Proof. vm_compute. reflexivity. Qed.

(** *** Texts parse to the end *)

Module CsvFacts.
Import Csv CsvVocabulary.

Lemma universal_newlines_spec (s : string) :
  (no_CR (universal_newlines s) = true
   /\ String.length (universal_newlines s) <= String.length s)
  /\ forall c, no_CR (universal_newlines (String c s)) = true
               /\ String.length (universal_newlines (String c s))
                  <= S (String.length s).
Proof.
  induction s as [|c' s [[IH1 IH2] IH3]].
  - split; [split; [reflexivity|simpl; lia]|].
    intros c. simpl. destruct (Ascii.eqb c CR) eqn:E; simpl.
    + split; [reflexivity|lia].
    + rewrite E. split; [reflexivity|lia].
  - split; [apply IH3|].
    intros c. destruct (IH3 c') as [H1 H2].
    change (universal_newlines (String c (String c' s)))
      with (if Ascii.eqb c CR then
              if Ascii.eqb c' LF then String LF (universal_newlines s)
              else String LF (universal_newlines (String c' s))
            else String c (universal_newlines (String c' s))).
    destruct (Ascii.eqb c CR) eqn:E.
    + destruct (Ascii.eqb c' LF).
      * change (String.length (String c' s)) with (S (String.length s)).
        simpl. rewrite IH1. split; [reflexivity|lia].
      * change (no_CR (String LF (universal_newlines (String c' s))))
          with (negb (Ascii.eqb LF CR)
                && no_CR (universal_newlines (String c' s))).
        rewrite H1. split; [reflexivity|].
        change (String.length (String LF (universal_newlines (String c' s))))
          with (S (String.length (universal_newlines (String c' s)))).
        change (String.length (String c' s)) with (S (String.length s)). lia.
    + change (no_CR (String c (universal_newlines (String c' s))))
        with (negb (Ascii.eqb c CR)
              && no_CR (universal_newlines (String c' s))).
      rewrite E, H1. split; [reflexivity|].
      change (String.length (String c (universal_newlines (String c' s))))
        with (S (String.length (universal_newlines (String c' s)))).
      change (String.length (String c' s)) with (S (String.length s)). lia.
Qed.

Lemma body_ok_line_ok (s : string) : body_ok s = true -> line_ok s = true.
Proof.
  induction s as [|c s IH]; simpl; [reflexivity|].
  unfold plain, is_newline. intros H.
  apply andb_true_iff in H. destruct H as [Hc Hs].
  apply negb_true_iff, orb_false_iff in Hc. destruct Hc as [-> ->].
  simpl. now apply IH.
Qed.

Lemma body_ok_snoc (s : string) (c : ascii) :
  body_ok s = true -> plain c = true ->
  body_ok (s ++ String c EmptyString) = true.
Proof.
  induction s as [|a s IH]; simpl; intros H Hc.
  - now rewrite Hc.
  - apply andb_true_iff in H. destruct H as [-> H]. simpl. now apply IH.
Qed.

Lemma line_ok_snoc_LF (s : string) :
  body_ok s = true -> line_ok (s ++ String LF EmptyString) = true.
Proof.
  induction s as [|a s IH]; simpl; intros H.
  - reflexivity.
  - unfold plain, is_newline in H.
    apply andb_true_iff in H. destruct H as [Hc Hs].
    apply negb_true_iff, orb_false_iff in Hc. destruct Hc as [-> ->].
    simpl. now apply IH.
Qed.

Lemma length_snoc (s : string) (c : ascii) :
  String.length (s ++ String c EmptyString) = S (String.length s).
Proof. induction s as [|a s IH]; simpl; [reflexivity|now rewrite IH]. Qed.

Lemma readlines_ok (s line : string) :
  no_CR s = true -> body_ok line = true ->
  Forall (fun l => line_ok l = true) (readlines line s)
  /\ total_length (readlines line s) = String.length line + String.length s.
Proof.
  revert line. induction s as [|c s IH]; simpl; intros line Hs Hl.
  - destruct line as [|a line]; simpl.
    + split; [constructor|reflexivity].
    + split; [|lia]. constructor; [|constructor].
      now apply (body_ok_line_ok (String a line)).
  - apply andb_true_iff in Hs. destruct Hs as [Hc Hs].
    destruct (Ascii.eqb c LF) eqn:E.
    + apply Ascii.eqb_eq in E. subst c.
      destruct (IH EmptyString Hs eq_refl) as [H1 H2]. split.
      * constructor; [now apply line_ok_snoc_LF|exact H1].
      * simpl. rewrite H2, length_snoc. simpl. lia.
    + destruct (IH (line ++ String c EmptyString)%string Hs) as [H1 H2].
      * apply body_ok_snoc; [exact Hl|].
        unfold plain, is_newline. rewrite E.
        apply negb_true_iff in Hc. now rewrite Hc.
      * split; [exact H1|]. rewrite H2, length_snoc. lia.
Qed.

Lemma parse_add_char_ok (self : ReaderObj) (c : ascii) :
  (field_len self < field_limit)%N ->
  parse_add_char self c
  = Ok {| state := state self; fields := fields self;
          field := (field self ++ String c EmptyString)%string;
          field_len := (field_len self + 1)%N |}.
Proof.
  intros H. unfold parse_add_char.
  apply N.leb_gt in H. now rewrite H.
Qed.

Lemma parse_plain_char (self : ReaderObj) (c : ascii) :
  calm (state self) -> plain c = true ->
  (field_len self < field_limit)%N ->
  exists self',
    parse_process_char self (Some c) = Ok self'
    /\ busy (state self')
    /\ (field_len self' <= field_len self + 1)%N.
Proof.
  unfold calm, busy, plain. intros Hs Hc Hl.
  apply negb_true_iff in Hc.
  destruct self as [st fs f n]. simpl in *.
  destruct st; try (now elim Hs); unfold parse_process_char; simpl;
    rewrite ?Hc;
    destruct (Ascii.eqb c quotechar); destruct (Ascii.eqb c delimiter);
    rewrite ?parse_add_char_ok by exact Hl; simpl;
    eexists; (split; [reflexivity|]); simpl;
    (split; [split; discriminate|lia]).
Qed.

Lemma parse_end_of_line (self : ReaderObj) :
  calm (state self) ->
  exists self',
    parse_process_char self None = Ok self'
    /\ at_line_end (state self')
    /\ (field_len self' <= field_len self)%N.
Proof.
  unfold calm, at_line_end. intros Hs.
  destruct self as [st fs f n]. simpl in *.
  destruct st; try (now elim Hs); unfold parse_process_char; simpl;
    eexists; (split; [reflexivity|]); simpl; (split; [auto|lia]).
Qed.

Lemma parse_line_feed (self : ReaderObj) :
  calm (state self) ->
  (field_len self < field_limit)%N ->
  exists self',
    parse_process_char self (Some LF) = Ok self'
    /\ (state self' = EAT_CRNL \/ state self' = IN_QUOTED_FIELD)
    /\ (field_len self' <= field_len self + 1)%N.
Proof.
  unfold calm. intros Hs Hl.
  destruct self as [st fs f n]. simpl in *.
  destruct st; try (now elim Hs); unfold parse_process_char; simpl;
    rewrite ?parse_add_char_ok by exact Hl; simpl;
    eexists; (split; [reflexivity|]); simpl; (split; [auto|lia]).
Qed.

Lemma parse_line_ok (line : string) (self : ReaderObj) :
  line_ok line = true ->
  calm (state self) ->
  (field_len self + N.of_nat (String.length line) <= field_limit)%N ->
  exists self',
    parse_line self line = Ok self'
    /\ at_line_end (state self')
    /\ (field_len self'
        <= field_len self + N.of_nat (String.length line))%N.
Proof.
  revert self. induction line as [|c line IH]; intros self Hl Hs Hn.
  - destruct (parse_end_of_line self Hs) as [self' [E [H1 H2]]].
    exists self'. simpl. repeat split; [exact E|exact H1|lia].
  - simpl in Hl. simpl String.length in *. simpl parse_line.
    destruct (Ascii.eqb c LF) eqn:Ec.
    + apply Ascii.eqb_eq in Ec. subst c.
      destruct line; [|discriminate].
      destruct (parse_line_feed self Hs) as [self1 [E [H1 H2]]]; [simpl in Hn; lia|].
      rewrite E. simpl.
      destruct H1 as [H1|H1].
      * exists (set_state START_RECORD self1).
        unfold parse_process_char. rewrite H1. simpl.
        repeat split; [left; reflexivity|lia].
      * destruct (parse_end_of_line self1) as [self' [E' [H3 H4]]].
        { unfold calm. rewrite H1. discriminate. }
        exists self'. repeat split; [exact E'|exact H3|lia].
    + apply andb_true_iff in Hl. destruct Hl as [Hc Hl].
      assert (Hp : plain c = true).
      { unfold plain, is_newline. rewrite Ec.
        apply negb_true_iff in Hc. now rewrite Hc. }
      destruct (parse_plain_char self c Hs Hp) as [self1 [E [H1 H2]]]; [lia|].
      rewrite E.
      destruct (IH self1 Hl) as [self' [E' [H3 H4]]].
      * apply H1.
      * lia.
      * exists self'. repeat split; [exact E'|exact H3|lia].
Qed.

Lemma Reader_iter_ends (lines : list string) (self : ReaderObj) :
  Forall (fun l => line_ok l = true) lines ->
  at_line_end (state self) ->
  (field_len self + N.of_nat (total_length lines) <= field_limit)%N ->
  snd (Reader_iter lines self) = StopIteration.
Proof.
  revert self. induction lines as [|line lines IH]; intros self Hl Hs Hn.
  - simpl. destruct (_ || _); reflexivity.
  - inversion Hl as [|? ? Hl1 Hl2]; subst.
    simpl total_length in Hn.
    destruct (parse_line_ok line self Hl1) as [self' [E [H1 H2]]].
    + destruct Hs as [Hs|Hs]; unfold calm; rewrite Hs; discriminate.
    + lia.
    + simpl Reader_iter. rewrite E.
      destruct H1 as [H1|H1]; rewrite H1.
      * specialize (IH parse_reset Hl2).
        destruct (Reader_iter lines parse_reset) as [recs e].
        simpl. apply IH; [left; reflexivity|simpl; lia].
      * apply IH; [exact Hl2|right; exact H1|lia].
Qed.

(** A text no longer than the field limit parses to the end: the
    default dialect never rejects a text, short of an oversized field. *)
Lemma reader_parses_to_end (text : string) :
  (N.of_nat (String.length text) <= field_limit)%N ->
  ending (reader text) = StopIteration.
Proof.
  intros H. unfold reader.
  destruct (universal_newlines_spec text) as [[H1 H2] _].
  destruct (readlines_ok (universal_newlines text) EmptyString H1 eq_refl)
    as [H3 H4].
  pose proof (Reader_iter_ends _ parse_reset H3 (or_introl eq_refl)) as H5.
  destruct (Reader_iter _ parse_reset) as [recs e]. simpl in *.
  apply H5. rewrite H4. lia.
Qed.

End CsvFacts.

(** ** Strings *)

Module PyStrFacts.
Import PyStr.

Lemma truthy_false_iff (s : string) : truthy s = false <-> s = "".
Proof. destruct s; simpl; split; congruence. Qed.

Lemma truthy_true_iff (s : string) : truthy s = true <-> s <> "".
Proof. destruct s; simpl; split; congruence. Qed.

Lemma isspace_lower_char (c : ascii) : isspace (lower_char c) = isspace c.
Proof.
  destruct c as [b0 b1 b2 b3 b4 b5 b6 b7];
    destruct b0, b1, b2, b3, b4, b5, b6, b7; reflexivity.
Qed.

Lemma lower_char_idem (c : ascii) : lower_char (lower_char c) = lower_char c.
Proof.
  destruct c as [b0 b1 b2 b3 b4 b5 b6 b7];
    destruct b0, b1, b2, b3, b4, b5, b6, b7; reflexivity.
Qed.

Lemma lower_idem (s : string) : lower (lower s) = lower s.
Proof.
  induction s as [|c s IH]; simpl; [reflexivity|].
  now rewrite lower_char_idem, IH.
Qed.

Lemma lstrip_lower (s : string) : lstrip (lower s) = lower (lstrip s).
Proof.
  induction s as [|c s IH]; simpl; [reflexivity|].
  rewrite isspace_lower_char. destruct (isspace c); [exact IH|reflexivity].
Qed.

Lemma rstrip_lower (s : string) : rstrip (lower s) = lower (rstrip s).
Proof.
  induction s as [|c s IH]; simpl; [reflexivity|].
  rewrite IH, isspace_lower_char.
  destruct (rstrip s); simpl; [destruct (isspace c)|]; reflexivity.
Qed.

Lemma strip_lower (s : string) : strip (lower s) = lower (strip s).
Proof. unfold strip. now rewrite lstrip_lower, rstrip_lower. Qed.


Lemma no_lead_lstrip (s : string) : no_lead (lstrip s) = true.
Proof.
  induction s as [|c s IH]; simpl; [reflexivity|].
  destruct (isspace c) eqn:E; [exact IH|]. simpl. now rewrite E.
Qed.

Lemma lstrip_no_lead (s : string) : no_lead s = true -> lstrip s = s.
Proof.
  destruct s as [|c s]; simpl; [reflexivity|].
  now destruct (isspace c).
Qed.

Lemma no_lead_rstrip (s : string) :
  no_lead s = true -> no_lead (rstrip s) = true.
Proof.
  destruct s as [|c s]; simpl; [reflexivity|]. intros H.
  destruct (rstrip s); [|exact H].
  destruct (isspace c) eqn:E; [discriminate|]. simpl. now rewrite E.
Qed.

Lemma rstrip_idem (s : string) : rstrip (rstrip s) = rstrip s.
Proof.
  induction s as [|c s IH]; simpl; [reflexivity|].
  destruct (rstrip s) as [|a r] eqn:E.
  - destruct (isspace c) eqn:Ec; simpl; [reflexivity|]. now rewrite Ec.
  - change (rstrip (String c (String a r))) with
      (match rstrip (String a r) with
       | EmptyString =>
           if isspace c then EmptyString else String c EmptyString
       | r0 => String c r0
       end).
    now rewrite IH.
Qed.

Lemma strip_idem (s : string) : strip (strip s) = strip s.
Proof.
  unfold strip.
  rewrite (lstrip_no_lead (rstrip (lstrip s))).
  - apply rstrip_idem.
  - apply no_lead_rstrip, no_lead_lstrip.
Qed.

(** The key the module makes of a string: [s.strip().lower()]. *)
Lemma normal_form_fixed (s : string) :
  lower (strip (lower (strip s))) = lower (strip s).
Proof. now rewrite strip_lower, strip_idem, lower_idem. Qed.

(** White space on either side of a string does not survive [strip]. *)
Lemma lstrip_space_app (ws s : string) :
  lstrip ws = "" -> lstrip (ws ++ s) = lstrip s.
Proof.
  induction ws as [|c ws IH]; simpl; [reflexivity|].
  destruct (isspace c); [exact IH|discriminate].
Qed.

End PyStrFacts.

(** ** Dictionaries *)

Section DictFacts.
Context {K V : Type} (K_eq_dec : forall x y : K, {x = y} + {x <> y}).

Local Abbreviation get := (dict_get K_eq_dec).
Local Abbreviation set := (dict_set K_eq_dec).

Lemma dict_get_set_same (d : dict K V) k v : get (set d k v) k = Some v.
Proof.
  induction d as [|[k' v'] d IH]; simpl.
  - destruct (K_eq_dec k k); congruence.
  - destruct (K_eq_dec k k') as [E|N]; simpl.
    + destruct (K_eq_dec k k'); congruence.
    + destruct (K_eq_dec k k'); [contradiction|exact IH].
Qed.

Lemma dict_get_set_other (d : dict K V) k k' v :
  k' <> k -> get (set d k v) k' = get d k'.
Proof.
  intros N. induction d as [|[k0 v0] d IH]; simpl.
  - destruct (K_eq_dec k' k); [contradiction|reflexivity].
  - destruct (K_eq_dec k k0) as [E|N0]; simpl.
    + subst k0. destruct (K_eq_dec k' k); [contradiction|reflexivity].
    + destruct (K_eq_dec k' k0); [reflexivity|exact IH].
Qed.

Lemma dict_keys_set (d : dict K V) k v k' :
  In k' (dict_keys (set d k v)) <-> k' = k \/ In k' (dict_keys d).
Proof.
  unfold dict_keys. induction d as [|[k0 v0] d IH]; simpl.
  - intuition.
  - destruct (K_eq_dec k k0) as [E|N]; simpl.
    + subst k0. intuition.
    + rewrite IH. intuition.
Qed.

Lemma dict_keys_set_NoDup (d : dict K V) k v :
  NoDup (dict_keys d) -> NoDup (dict_keys (set d k v)).
Proof.
  unfold dict_keys. induction d as [|[k0 v0] d IH]; simpl; intros H.
  - constructor; [intros []|constructor].
  - inversion H as [|? ? Hn Hd]; subst.
    destruct (K_eq_dec k k0) as [E|N]; simpl.
    + constructor; assumption.
    + constructor; [|now apply IH].
      intros Hin. apply (dict_keys_set d k v k0) in Hin.
      destruct Hin as [E|Hin]; [now apply N|now apply Hn].
Qed.

Lemma dict_get_In (d : dict K V) k v : get d k = Some v -> In (k, v) d.
Proof.
  induction d as [|[k0 v0] d IH]; simpl; [discriminate|].
  destruct (K_eq_dec k k0) as [E|N]; intros H.
  - left. congruence.
  - right. now apply IH.
Qed.

(** Every value stored by [set] comes from the old dictionary or is the
    new one. *)
Lemma dict_set_In (d : dict K V) k v k' v' :
  In (k', v') (set d k v) -> (k' = k /\ v' = v) \/ In (k', v') d.
Proof.
  induction d as [|[k0 v0] d IH]; simpl.
  - intros [E|[]]. left. now inversion E.
  - destruct (K_eq_dec k k0) as [E|N]; simpl.
    + intros [E'|H]; [left; inversion E'; subst; now split|right; now right].
    + intros [E'|H]; [right; now left|].
      destruct (IH H) as [?|?]; [now left|right; now right].
Qed.

Lemma dict_set_fresh (d : dict K V) k v :
  ~ In k (dict_keys d) -> set d k v = d ++ [(k, v)].
Proof.
  unfold dict_keys. induction d as [|[k0 v0] d IH]; simpl; intros H.
  - reflexivity.
  - destruct (K_eq_dec k k0) as [E|N]; [exfalso; apply H; now left|].
    f_equal. apply IH. intros Hin. apply H. now right.
Qed.


Lemma fill_keys (l : list (K * V)) (d : dict K V) k :
  In k (dict_keys (fill K_eq_dec d l)) <-> In k (map fst l) \/ In k (dict_keys d).
Proof.
  unfold fill. revert d. induction l as [|[k0 v0] l IH]; simpl; intros d.
  - intuition.
  - rewrite IH, dict_keys_set. intuition.
Qed.

Lemma fill_NoDup (l : list (K * V)) (d : dict K V) :
  NoDup (dict_keys d) -> NoDup (dict_keys (fill K_eq_dec d l)).
Proof.
  unfold fill. revert d. induction l as [|[k0 v0] l IH]; simpl; intros d H.
  - exact H.
  - apply IH. now apply dict_keys_set_NoDup.
Qed.

Lemma fill_In (l : list (K * V)) (d : dict K V) k v :
  In (k, v) (fill K_eq_dec d l) -> In (k, v) l \/ In (k, v) d.
Proof.
  unfold fill. revert d. induction l as [|[k0 v0] l IH]; simpl; intros d H.
  - now right.
  - destruct (IH _ H) as [?|Hs]; [left; now right|].
    destruct (dict_set_In _ _ _ _ _ Hs) as [[-> ->]|?];
      [left; now left|now right].
Qed.

End DictFacts.

(** ** Rows *)

Module RowFacts.
Import PyStr PyStrFacts.

Local Abbreviation rfill := (fill row_key_eq_dec).

Lemma map_fst_combine {A B} (a : list A) (b : list B) :
  map fst (combine a b) = firstn (List.length b) a.
Proof.
  revert b. induction a as [|x a IH]; intros [|y b]; simpl;
    try reflexivity.
  now rewrite IH.
Qed.

Lemma rest_fill (l : list string) (d : Row) :
  fold_left (fun d key => row_set d (Some key) VNone) l d
  = rfill d (map (fun key => (Some key, VNone)) l).
Proof.
  unfold fill. revert d. induction l as [|k l IH]; simpl; intros d.
  - reflexivity.
  - apply IH.
Qed.

(** [DictReader_row] as two fillings of the empty dictionary. *)
Lemma DictReader_row_fill (f rec : list string) :
  DictReader_row f rec =
  let d := rfill [] (combine (map Some f) (map VStr rec)) in
  if (List.length f <? List.length rec)%nat
  then rfill d [(None, VList (skipn (List.length f) rec))]
  else rfill d (map (fun key => (Some key, VNone))
                    (skipn (List.length rec) f)).
Proof.
  unfold DictReader_row. cbv zeta.
  destruct (List.length f <? List.length rec)%nat eqn:E1; [reflexivity|].
  destruct (List.length rec <? List.length f)%nat eqn:E2.
  - apply rest_fill.
  - apply Nat.ltb_ge in E1, E2.
    now rewrite skipn_all2 by exact E2.
Qed.

Lemma DictReader_row_NoDup (f rec : list string) :
  NoDup (dict_keys (DictReader_row f rec)).
Proof.
  rewrite DictReader_row_fill. cbv zeta.
  destruct (_ <? _)%nat; apply fill_NoDup, fill_NoDup; constructor.
Qed.

(** Under a column name a [DictReader] row holds a string or [None],
    never a list. *)
Lemma DictReader_row_named (f rec : list string) (name : string) (v : value) :
  In (Some name, v) (DictReader_row f rec) ->
  v = VNone \/ exists s, v = VStr s /\ In s rec.
Proof.
  rewrite DictReader_row_fill. cbv zeta. intros H.
  assert (Hd : In (Some name, v)
                  (rfill [] (combine (map Some f) (map VStr rec))) ->
               exists s, v = VStr s /\ In s rec).
  { intros Hd. apply fill_In in Hd. destruct Hd as [Hd|[]].
    apply in_combine_r in Hd. apply in_map_iff in Hd.
    destruct Hd as [s [E Hs]]. now exists s. }
  destruct (_ <? _)%nat; apply fill_In in H; destruct H as [H|H].
  - destruct H as [H|[]]. discriminate.
  - right. now apply Hd.
  - left. apply in_map_iff in H. destruct H as [k [E _]]. congruence.
  - right. now apply Hd.
Qed.

(** The named keys of a [DictReader] row are the header names. *)
Lemma DictReader_row_names (f rec : list string) (name : string) :
  In (Some name) (dict_keys (DictReader_row f rec)) <-> In name f.
Proof.
  rewrite DictReader_row_fill. cbv zeta.
  assert (Hk : forall l : list string,
             In (Some name) (map Some l) <-> In name l).
  { intros l. rewrite in_map_iff. split.
    - intros [x [E H]]. congruence.
    - intros H. now exists name. }
  assert (Hf : forall n, In (Some name) (firstn n (map Some f))
                         <-> In name (firstn n f)).
  { intros n. rewrite firstn_map. apply Hk. }
  destruct (_ <? _)%nat eqn:E;
    rewrite !fill_keys, map_fst_combine, length_map, Hf; simpl.
  - apply Nat.ltb_lt in E. rewrite firstn_all2 by lia.
    split; [|tauto].
    intros [[H|[]]|[H|[]]]; [discriminate|exact H].
  - rewrite map_map. simpl. rewrite Hk.
    rewrite <- (firstn_skipn (List.length rec) f) at 3.
    rewrite in_app_iff. tauto.
Qed.

(** The key [None] is there exactly for a record longer than the
    header. *)
Lemma DictReader_row_restkey (f rec : list string) :
  In None (dict_keys (DictReader_row f rec))
  <-> (List.length f < List.length rec)%nat.
Proof.
  rewrite DictReader_row_fill. cbv zeta.
  assert (Hn : forall l : list string, ~ In None (map Some l)).
  { intros l H. apply in_map_iff in H. destruct H as [x [E _]].
    discriminate. }
  assert (Hc : ~ In None
                 (map fst (combine (map Some f) (map VStr rec)))).
  { intros H. apply in_map_iff in H. destruct H as [[k v] [E H]].
    simpl in E. subst k. apply in_combine_l in H. now apply Hn in H. }
  destruct (_ <? _)%nat eqn:E; rewrite !fill_keys; simpl.
  - apply Nat.ltb_lt in E. tauto.
  - apply Nat.ltb_ge in E. rewrite map_map. simpl.
    split; [|lia].
    intros [H|[H|[]]]; [now apply Hn in H|contradiction].
Qed.

(** *** The normalised copy of a row *)


Lemma normalise_fold (row acc : Row) :
  NoDup (dict_keys acc ++ dict_keys row) ->
  fold_left (fun acc kv => row_set acc (fst kv) (normalise_value (snd kv)))
            row acc
  = acc ++ map normalise_item row.
Proof.
  revert acc. induction row as [|[k v] row IH]; simpl; intros acc H.
  - now rewrite app_nil_r.
  - unfold row_set at 2. rewrite dict_set_fresh.
    + rewrite IH.
      * now rewrite <- app_assoc.
      * unfold dict_keys in *. rewrite map_app, <- app_assoc. exact H.
    + apply NoDup_remove_2 in H. intros Hin. apply H.
      apply in_or_app. now left.
Qed.

(** A dictionary comprehension over a dictionary keeps its keys in
    place. *)
Lemma normalise_row_map (row : Row) :
  NoDup (dict_keys row) -> normalise_row row = map normalise_item row.
Proof. intros H. unfold normalise_row. now rewrite normalise_fold. Qed.

Lemma row_get_map_normalise (row : Row) (k : row_key) :
  row_get (map normalise_item row) k
  = option_map normalise_value (row_get row k).
Proof.
  unfold row_get. induction row as [|[k0 v0] row IH]; simpl.
  - reflexivity.
  - destruct (row_key_eq_dec k k0); [reflexivity|exact IH].
Qed.

Lemma dict_keys_map_normalise (row : Row) :
  dict_keys (map normalise_item row) = dict_keys row.
Proof. unfold dict_keys. rewrite map_map. reflexivity. Qed.

Lemma normalise_value_trimmed (v : value) (s : string) :
  normalise_value v = VStr s -> strip s = s.
Proof.
  destruct v; simpl; intros H; inversion H. apply strip_idem.
Qed.

Lemma normalise_DictReader_row (f rec : list string) :
  normalise_row (DictReader_row f rec)
  = map normalise_item (DictReader_row f rec).
Proof. apply normalise_row_map, DictReader_row_NoDup. Qed.

End RowFacts.

(** ** The loop *)

Module LoadFacts.
Import PyStr PyStrFacts RowFacts.


Lemma row_get_imdb_id_scalar (f rec : list string) :
  row_get_imdb_id (DictReader_row f rec) = VNone
  \/ exists s, row_get_imdb_id (DictReader_row f rec) = VStr s /\ In s rec.
Proof.
  unfold row_get_imdb_id, row_get.
  destruct (dict_get _ _ _) as [v|] eqn:E; [|now left].
  apply dict_get_In in E. now apply DictReader_row_named in E.
Qed.

(** On a [DictReader] row the body of the loop never raises. *)
Lemma loop_body_store (f rec : list string) (records : Dataset) :
  loop_body (DictReader_row f rec) records
  = Ok (store records (DictReader_row f rec)).
Proof.
  unfold loop_body, store, row_imdb_key.
  destruct (row_get_imdb_id_scalar f rec) as [E|[s [E _]]]; rewrite E.
  - reflexivity.
  - unfold value_or_empty. simpl.
    destruct s as [|c s]; [reflexivity|]. simpl value_strip. cbv iota.
    destruct (truthy (lower (strip (String c s)))); reflexivity.
Qed.

Lemma for_records_rows (f : list string) (p : list (list string))
      (e : reader_end) (records : Dataset) :
  for_records f p e records
  = match e with
    | StopIteration => Ok (fold_left store (rows_of f p) records)
    | Fails x => Raise x
    end.
Proof.
  revert records. induction p as [|rec p IH]; intros records.
  - destruct e; reflexivity.
  - destruct rec as [|a rec]; [exact (IH records)|].
    change (for_records f ((a :: rec) :: p) e records)
      with (match loop_body (DictReader_row f (a :: rec)) records with
            | Ok records' => for_records f p e records'
            | Raise x => Raise x
            end).
    rewrite loop_body_store, IH. reflexivity.
Qed.

(** The [with] block on a file: nothing for an empty file, else the
    loop over the records after the header, under the trimmed header. *)
Lemma read_records_eq (c : csv_reader) :
  read_records c
  = match pending c with
    | [] =>
        match ending c with
        | StopIteration => Ok []
        | Fails x => Raise x
        end
    | hdr :: p => for_records (map strip hdr) p (ending c) []
    end.
Proof.
  destruct c as [[|hdr p] e]; unfold read_records; simpl.
  - destruct e; reflexivity.
  - destruct hdr; reflexivity.
Qed.

(** [__next__] unrolls the loop: the structural [for_row_in_reader] is
    the [for] loop over the iterator. *)
Lemma for_records_next (f : list string) (p : list (list string))
      (e : reader_end) (records : Dataset) :
  for_records f p e records
  = match next_nonblank p e with
    | (Yield rec, r') =>
        match loop_body (DictReader_row f rec) records with
        | Ok records' => for_records f (pending r') (ending r') records'
        | Raise x => Raise x
        end
    | (Stop, _) => Ok records
    | (NextRaise x, _) => Raise x
    end.
Proof.
  induction p as [|rec p IH].
  - destruct e; reflexivity.
  - destruct rec as [|a rec]; [exact IH|reflexivity].
Qed.

Lemma for_row_in_reader_next (rd : DictReader) (records : Dataset) :
  for_row_in_reader rd records
  = match DictReader___next__ rd with
    | (Yield row, rd') =>
        match loop_body row records with
        | Ok records' => for_row_in_reader rd' records'
        | Raise x => Raise x
        end
    | (Stop, _) => Ok records
    | (NextRaise x, _) => Raise x
    end.
Proof.
  destruct rd as [[f|] [p e]];
    unfold for_row_in_reader, DictReader___next__, DictReader_fieldnames;
    simpl.
  - rewrite for_records_next.
    destruct (next_nonblank p e) as [[rec| |x] r']; reflexivity.
  - destruct p as [|hdr p]; simpl.
    + destruct e; reflexivity.
    + rewrite for_records_next.
      destruct (next_nonblank p e) as [[rec| |x] r']; reflexivity.
Qed.

(** *** Folding [store] over the rows *)

Lemma store_get_same (d : Dataset) (row : Row) :
  truthy (row_imdb_key row) = true ->
  dataset_get (store d row) (row_imdb_key row) = Some (normalise_row row).
Proof.
  intros H. unfold store. rewrite H. apply dict_get_set_same.
Qed.

Lemma store_get_other (d : Dataset) (row : Row) (k : string) :
  row_imdb_key row <> k ->
  dataset_get (store d row) k = dataset_get d k.
Proof.
  intros H. unfold store. destruct (truthy _); [|reflexivity].
  apply dict_get_set_other. congruence.
Qed.

Lemma fold_store_get_other (rows : list Row) (d : Dataset) (k : string) :
  Forall (fun row => row_imdb_key row <> k) rows ->
  dataset_get (fold_left store rows d) k = dataset_get d k.
Proof.
  revert d. induction rows as [|row rows IH]; simpl; intros d H.
  - reflexivity.
  - inversion H; subst. rewrite IH by assumption.
    now apply store_get_other.
Qed.

(** Last row wins. *)
Lemma fold_store_get_last (pre post : list Row) (row : Row) (d : Dataset) :
  truthy (row_imdb_key row) = true ->
  Forall (fun r => row_imdb_key r <> row_imdb_key row) post ->
  dataset_get (fold_left store (pre ++ row :: post) d) (row_imdb_key row)
  = Some (normalise_row row).
Proof.
  intros Ht Hp. rewrite fold_left_app. simpl.
  rewrite fold_store_get_other by exact Hp.
  now apply store_get_same.
Qed.

Lemma store_NoDup (d : Dataset) (row : Row) :
  NoDup (dict_keys d) -> NoDup (dict_keys (store d row)).
Proof.
  intros H. unfold store. destruct (truthy _); [|exact H].
  now apply dict_keys_set_NoDup.
Qed.

Lemma fold_store_NoDup (rows : list Row) (d : Dataset) :
  NoDup (dict_keys d) -> NoDup (dict_keys (fold_left store rows d)).
Proof.
  revert d. induction rows as [|row rows IH]; simpl; intros d H.
  - exact H.
  - apply IH. now apply store_NoDup.
Qed.

(** Every entry of the result was put there by [store] for some row. *)
Lemma fold_store_In (rows : list Row) (d : Dataset) (k : string) (r : Row) :
  In (k, r) (fold_left store rows d) ->
  In (k, r) d
  \/ exists row, In row rows /\ k = row_imdb_key row
                 /\ truthy k = true /\ r = normalise_row row.
Proof.
  revert d. induction rows as [|row rows IH]; simpl; intros d H.
  - now left.
  - destruct (IH _ H) as [Hs|[row' [Hin Hr]]].
    + unfold store in Hs.
      destruct (truthy (row_imdb_key row)) eqn:Et; [|now left].
      apply dict_set_In in Hs. destruct Hs as [[-> ->]|Hs]; [|now left].
      right. exists row. auto.
    + right. exists row'. auto.
Qed.

End LoadFacts.

(** ** The process *)

Module ProcessFacts.
Import PyStr PyStrFacts RowFacts LoadFacts.


Lemma _load_dataset_body_eq (w : world) :
  _load_dataset_body w
  = (Ok (fst (load_outcome (disk w))),
     add_events (snd (load_outcome (disk w))) w).
Proof.
  destruct w as [f c t].
  unfold _load_dataset_body, bind, try_except, path_exists, path_open,
    logging, lift, ret, emit, add_events; simpl.
  destruct f as [|e|rd]; simpl.
  - now rewrite <- app_assoc.
  - now rewrite <- !app_assoc.
  - destruct (read_records rd); simpl; now rewrite <- !app_assoc.
Qed.

Lemma _load_dataset_cold (w : world) :
  cache w = None ->
  _load_dataset w
  = (Ok (fst (load_outcome (disk w))),
     set_cache (Some (fst (load_outcome (disk w))))
               (add_events (snd (load_outcome (disk w))) w)).
Proof.
  intros H. unfold _load_dataset. now rewrite H, _load_dataset_body_eq.
Qed.

Lemma _load_dataset_warm (w : world) (d : Dataset) :
  cache w = Some d -> _load_dataset w = (Ok d, w).
Proof. intros H. unfold _load_dataset. now rewrite H. Qed.

(** A lookup whose key is not empty asks [_load_dataset]. *)
Lemma get_movie_by_imdb_key (w : world) (s : string) :
  lower (strip s) <> "" ->
  get_movie_by_imdb (Some s) w
  = match _load_dataset w with
    | (Ok d, w') => (Ok (dataset_get d (lower (strip s))), w')
    | (Raise e, w') => (Raise e, w')
    end.
Proof.
  intros H. unfold get_movie_by_imdb.
  destruct s as [|c s]; [now elim H|]. simpl negb. cbv iota.
  apply truthy_true_iff in H. rewrite H. reflexivity.
Qed.

(** A lookup whose key is empty touches nothing. *)
Lemma get_movie_by_imdb_blank (w : world) (s : string) :
  lower (strip s) = "" -> get_movie_by_imdb (Some s) w = (Ok None, w).
Proof.
  intros H. unfold get_movie_by_imdb.
  destruct (truthy s); [|reflexivity]. simpl negb. cbv iota.
  apply truthy_false_iff in H. rewrite H. reflexivity.
Qed.

Lemma get_movie_by_imdb_warm (w : world) (d : Dataset) (s : string) :
  cache w = Some d -> lower (strip s) <> "" ->
  get_movie_by_imdb (Some s) w = (Ok (dataset_get d (lower (strip s))), w).
Proof.
  intros Hc H. rewrite get_movie_by_imdb_key by exact H.
  now rewrite (_load_dataset_warm w d Hc).
Qed.

Lemma get_movie_by_imdb_cold (w : world) (s : string) :
  cache w = None -> lower (strip s) <> "" ->
  get_movie_by_imdb (Some s) w
  = (Ok (dataset_get (fst (load_outcome (disk w))) (lower (strip s))),
     set_cache (Some (fst (load_outcome (disk w))))
               (add_events (snd (load_outcome (disk w))) w)).
Proof.
  intros Hc H. rewrite get_movie_by_imdb_key by exact H.
  now rewrite (_load_dataset_cold w Hc).
Qed.

(** The dataset a file that parses to the end loads to. *)
Lemma load_outcome_rows (hdr : list string) (p : list (list string)) :
  fst (load_outcome
         (Readable {| pending := hdr :: p; ending := StopIteration |}))
  = fold_left store (rows_of (map strip hdr) p) [].
Proof.
  unfold load_outcome. rewrite read_records_eq. simpl pending.
  simpl ending. cbv iota. rewrite for_records_rows. reflexivity.
Qed.

(** A dataset that is not empty comes from a file with a header that
    parses to the end. *)
Lemma load_outcome_inv (f : file_state) (k : string) (row : Row) :
  In (k, row) (fst (load_outcome f)) ->
  exists hdr p,
    f = Readable {| pending := hdr :: p; ending := StopIteration |}.
Proof.
  destruct f as [|e|[p e]]; simpl; try contradiction.
  rewrite read_records_eq. simpl.
  destruct p as [|hdr p].
  - destruct e; simpl; contradiction.
  - rewrite for_records_rows. destruct e; simpl; [|contradiction].
    intros _. now exists hdr, p.
Qed.

End ProcessFacts.

(* ================================================================== *)
(** * Lookups, the cache slot and the loaded dataset *)

Import PyStr PyStrFacts RowFacts LoadFacts ProcessFacts.

(** ** The cache slot *)

Lemma file_reads_app (t u : list event) :
  file_reads (t ++ u) = file_reads t + file_reads u.
Proof.
  induction t as [|[p b|p|r] t IH]; simpl; rewrite ?IH; reflexivity.
Qed.

Lemma file_probes_app (t u : list event) :
  file_probes (t ++ u) = file_probes t + file_probes u.
Proof.
  induction t as [|[p b|p|r] t IH]; simpl; rewrite ?IH; reflexivity.
Qed.

Lemma load_outcome_reads (f : file_state) :
  file_reads (snd (load_outcome f)) <= 1
  /\ file_probes (snd (load_outcome f)) = 1.
Proof.
  destruct f as [|e|c]; simpl; [lia|lia|].
  destruct (read_records c); simpl; lia.
Qed.

(** One lookup either leaves the process alone or fills the empty
    cache slot. *)
Lemma lookup_cases (w : world) (imdb_id : option string) :
  get_movie_by_imdb imdb_id w = (fst (get_movie_by_imdb imdb_id w), w)
  \/ (cache w = None
      /\ snd (get_movie_by_imdb imdb_id w)
         = set_cache (Some (fst (load_outcome (disk w))))
                     (add_events (snd (load_outcome (disk w))) w)).
Proof.
  destruct imdb_id as [s|]; [|now left].
  destruct (string_dec (lower (strip s)) "") as [E|N].
  - left. now rewrite get_movie_by_imdb_blank.
  - destruct (cache w) as [d|] eqn:Hc.
    + left. now rewrite (get_movie_by_imdb_warm w d s Hc N).
    + right. split; [reflexivity|].
      now rewrite (get_movie_by_imdb_cold w s Hc N).
Qed.

Lemma run_warm (acts : list action) (w : world) (d : Dataset) :
  cache w = Some d ->
  cache (run acts w) = Some d /\ trace (run acts w) = trace w.
Proof.
  unfold run. revert w. induction acts as [|a acts IH]; simpl; intros w Hc.
  - now split.
  - assert (H : cache (step a w) = Some d /\ trace (step a w) = trace w).
    { destruct a as [q|f]; simpl; [|now split].
      destruct (lookup_cases w q) as [E|[E _]]; [|congruence].
      rewrite E. simpl. now split. }
    destruct H as [H1 H2]. destruct (IH _ H1) as [H3 H4].
    split; congruence.
Qed.

Lemma run_reads (acts : list action) (w : world) :
  file_reads (trace (run acts w)) <= file_reads (trace w) + 1
  /\ file_probes (trace (run acts w)) <= file_probes (trace w) + 1.
Proof.
  unfold run. revert w. induction acts as [|a acts IH]; simpl; intros w.
  - lia.
  - destruct a as [q|f]; simpl.
    + destruct (lookup_cases w q) as [E|[Hc E]].
      * rewrite E. simpl. apply IH.
      * rewrite E.
        destruct (run_warm acts
                    (set_cache (Some (fst (load_outcome (disk w))))
                       (add_events (snd (load_outcome (disk w))) w))
                    (fst (load_outcome (disk w))) eq_refl) as [_ Ht].
        unfold run in Ht. rewrite Ht. simpl.
        rewrite file_reads_app, file_probes_app.
        pose proof (load_outcome_reads (disk w)). lia.
    + apply (IH (set_disk f w)).
Qed.

(** A process that has only seen lookups since it started on a file
    holds nothing, or the dataset of that file. *)
Lemma run_lookups_synced (f : file_state) (prior : list (option string)) :
  let w := run (map Lookup prior) (fresh f) in
  disk w = f
  /\ (cache w = None \/ cache w = Some (fst (load_outcome f))).
Proof.
  cbv zeta. unfold run.
  assert (H : forall w, disk w = f ->
                        cache w = None \/ cache w = Some (fst (load_outcome f)) ->
                        disk (fold_left (fun w a => step a w)
                                (map Lookup prior) w) = f
                        /\ (cache (fold_left (fun w a => step a w)
                                     (map Lookup prior) w) = None
                            \/ cache (fold_left (fun w a => step a w)
                                        (map Lookup prior) w)
                               = Some (fst (load_outcome f)))).
  { induction prior as [|q prior IH]; simpl; intros w Hd Hc.
    - now split.
    - destruct (lookup_cases w q) as [E|[_ E]].
      + rewrite E. simpl. now apply IH.
      + rewrite E. apply IH; simpl; [exact Hd|]. right. now rewrite Hd. }
  apply H; [reflexivity|now left].
Qed.

(** What a lookup answers in such a process. *)
Lemma lookup_synced (w : world) (f : file_state) (s : string) :
  disk w = f ->
  cache w = None \/ cache w = Some (fst (load_outcome f)) ->
  lower (strip s) <> "" ->
  fst (get_movie_by_imdb (Some s) w)
  = Ok (dataset_get (fst (load_outcome f)) (lower (strip s))).
Proof.
  intros Hd [Hc|Hc] Hs.
  - rewrite (get_movie_by_imdb_cold w s Hc Hs), Hd. reflexivity.
  - now rewrite (get_movie_by_imdb_warm w _ s Hc Hs).
Qed.

Lemma _load_dataset_body_outcome (w w' : world) (d : Dataset) :
  _load_dataset_body w = (Ok d, w') -> d = fst (load_outcome (disk w)).
Proof. rewrite _load_dataset_body_eq. intros H. now inversion H. Qed.

Lemma load_outcome_NoDup (f : file_state) :
  NoDup (dict_keys (fst (load_outcome f))).
Proof.
  destruct f as [|e|[p e]]; simpl; try constructor.
  rewrite read_records_eq. simpl. destruct p as [|hdr p].
  - destruct e; constructor.
  - rewrite for_records_rows. destruct e; simpl; [|constructor].
    apply fold_store_NoDup. constructor.
Qed.

(** A file whose text is no longer than the field limit loads: the
    loader logs the count of its entries, no error. *)
Lemma text_file_loads (text : string) :
  (N.of_nat (String.length text) <= Csv.field_limit)%N ->
  exists d w',
    _load_dataset_body (fresh (text_file text)) = (Ok d, w')
    /\ trace w' = [EvExists _dataset_path true; EvOpen _dataset_path;
                   debug_loaded (List.length d)].
Proof.
  intros H. apply CsvFacts.reader_parses_to_end in H.
  rewrite _load_dataset_body_eq. unfold text_file, fresh. simpl.
  rewrite read_records_eq.
  destruct (Csv.reader text) as [p e]. simpl in *. subst e.
  destruct p as [|hdr p].
  - eexists. eexists. split; reflexivity.
  - rewrite for_records_rows. eexists. eexists. split; reflexivity.
Qed.

(** ** The dataset of a file *)

Lemma imdb_field_key (names rec : list string) (v : string) :
  imdb_field names rec = Some (VStr v) ->
  row_imdb_key (DictReader_row names rec) = lower (strip v).
Proof.
  unfold imdb_field, row_imdb_key, row_get_imdb_id. now intros ->.
Qed.

Lemma imdb_field_nonblank (names rec : list string) (v : string) :
  imdb_field names rec = Some (VStr v) -> nonblank rec = true.
Proof.
  unfold imdb_field, row_get. intros H. apply dict_get_In in H.
  apply DictReader_row_named in H. destruct H as [H|[s [_ H]]].
  - discriminate.
  - destruct rec; [contradiction|reflexivity].
Qed.

Lemma row_imdb_key_cases (names rec : list string) :
  row_imdb_key (DictReader_row names rec) = ""
  \/ exists v, imdb_field names rec = Some (VStr v)
               /\ row_imdb_key (DictReader_row names rec) = lower (strip v).
Proof.
  unfold row_imdb_key, imdb_field, row_get_imdb_id.
  destruct (row_get _ _) as [[s| |l]|]; auto.
  right. now exists s.
Qed.

Lemma not_carried_rows (names : list string) (k : string)
      (p : list (list string)) :
  k <> "" -> not_carried names k p ->
  Forall (fun row => row_imdb_key row <> k) (rows_of names p).
Proof.
  intros Hk H. unfold rows_of. apply Forall_forall. intros row Hin.
  apply in_map_iff in Hin. destruct Hin as [rec [<- Hin]].
  apply filter_In in Hin. destruct Hin as [Hin _].
  unfold not_carried in H. rewrite Forall_forall in H.
  destruct (row_imdb_key_cases names rec) as [E|[v [Hv E]]]; rewrite E.
  - congruence.
  - now apply (H rec Hin).
Qed.

Lemma rows_of_app (names : list string) (p q : list (list string)) :
  rows_of names (p ++ q) = rows_of names p ++ rows_of names q.
Proof. unfold rows_of. now rewrite filter_app, map_app. Qed.

Lemma rows_of_cons (names rec : list string) (p : list (list string)) :
  rows_of names (rec :: p)
  = if nonblank rec then DictReader_row names rec :: rows_of names p
    else rows_of names p.
Proof. unfold rows_of. simpl. now destruct (nonblank rec). Qed.

(** The entry of the last record that carries an identifier. *)
Lemma loaded_last (hdr : list string) (pre post : list (list string))
      (rec : list string) (v : string) :
  let names := map strip hdr in
  imdb_field names rec = Some (VStr v) ->
  lower (strip v) <> "" ->
  not_carried names (lower (strip v)) post ->
  dataset_get
    (fst (load_outcome
            (Readable {| pending := hdr :: pre ++ rec :: post;
                         ending := StopIteration |})))
    (lower (strip v))
  = Some (normalise_row (DictReader_row names rec)).
Proof.
  intros names Hv Hk Hp.
  rewrite load_outcome_rows, rows_of_app, rows_of_cons.
  rewrite (imdb_field_nonblank names rec v Hv).
  rewrite <- (imdb_field_key names rec v Hv).
  apply fold_store_get_last.
  - apply truthy_true_iff. now rewrite (imdb_field_key names rec v Hv).
  - rewrite (imdb_field_key names rec v Hv).
    now apply not_carried_rows.
Qed.

(** Keys and values of a normalised [DictReader] row. *)
Lemma normalised_row_shape (names rec : list string) :
  let row := normalise_row (DictReader_row names rec) in
  (forall name, In (Some name) (dict_keys row) <-> In name names)
  /\ (In None (dict_keys row) <-> List.length names < List.length rec)
  /\ (forall k s, In (k, VStr s) row -> strip s = s)
  /\ (forall k, row_get row k
                = option_map normalise_value
                    (row_get (DictReader_row names rec) k)).
Proof.
  intros row. unfold row. rewrite normalise_DictReader_row.
  rewrite dict_keys_map_normalise. repeat split.
  - apply DictReader_row_names.
  - apply DictReader_row_names.
  - apply DictReader_row_restkey.
  - apply DictReader_row_restkey.
  - intros k s H. apply in_map_iff in H. destruct H as [[k0 v0] [E _]].
    unfold normalise_item in E. simpl in E. inversion E.
    eapply normalise_value_trimmed. eassumption.
  - intros k. apply row_get_map_normalise.
Qed.

Lemma carries_dec (names : list string) (k : string) (r : list string) :
  {exists u, imdb_field names r = Some (VStr u) /\ lower (strip u) = k}
  + {forall u, imdb_field names r = Some (VStr u) -> lower (strip u) <> k}.
Proof.
  destruct (imdb_field names r) as [[s| |l]|]; try (right; discriminate).
  destruct (string_dec (lower (strip s)) k) as [E|N].
  - left. now exists s.
  - right. intros u H. now inversion H; subst.
Qed.

(** Among the records, the last one that carries a given key. *)
Lemma last_carrier_or_none (names : list string) (k : string)
      (recs : list (list string)) :
  not_carried names k recs
  \/ exists pre last post u,
      recs = pre ++ last :: post
      /\ imdb_field names last = Some (VStr u)
      /\ lower (strip u) = k
      /\ not_carried names k post.
Proof.
  induction recs as [|r rs IH].
  - left. constructor.
  - destruct IH as [Hn|[pre [last [post [u [E H]]]]]].
    + destruct (carries_dec names k r) as [[u [Hu Hk]]|Hr].
      * right. exists [], r, rs, u. repeat split; assumption.
      * left. now constructor.
    + right. exists (r :: pre), last, post, u. subst rs.
      split; [reflexivity|exact H].
Qed.

Lemma last_carrier (names : list string) (recs : list (list string))
      (rec : list string) (v : string) :
  In rec recs ->
  imdb_field names rec = Some (VStr v) ->
  exists pre last post u,
    recs = pre ++ last :: post
    /\ imdb_field names last = Some (VStr u)
    /\ lower (strip u) = lower (strip v)
    /\ not_carried names (lower (strip v)) post.
Proof.
  intros Hin Hv.
  destruct (last_carrier_or_none names (lower (strip v)) recs) as [Hn|H].
  - unfold not_carried in Hn. rewrite Forall_forall in Hn.
    now elim (Hn rec Hin v Hv).
  - exact H.
Qed.

(** Where an entry of a loaded dataset comes from. *)
Lemma loaded_entry (f : file_state) (k : string) (row : Row) :
  In (k, row) (fst (load_outcome f)) ->
  exists hdr p rec raw,
    f = Readable {| pending := hdr :: p; ending := StopIteration |}
    /\ In rec p
    /\ imdb_field (map strip hdr) rec = Some (VStr raw)
    /\ k = lower (strip raw)
    /\ k <> ""
    /\ row = normalise_row (DictReader_row (map strip hdr) rec).
Proof.
  intros H. destruct (load_outcome_inv f k row H) as [hdr [p ->]].
  rewrite load_outcome_rows in H. apply fold_store_In in H.
  destruct H as [[]|[row' [Hin [Hk [Ht Hr]]]]].
  unfold rows_of in Hin. apply in_map_iff in Hin.
  destruct Hin as [rec [<- Hin]]. apply filter_In in Hin.
  destruct Hin as [Hin _].
  apply truthy_true_iff in Ht.
  destruct (row_imdb_key_cases (map strip hdr) rec) as [E|[raw [Hv E]]].
  - congruence.
  - exists hdr, p, rec, raw. repeat split; try assumption. congruence.
Qed.

Lemma blank_imdb_id_key (names rec : list string) :
  blank_imdb_id names rec -> row_imdb_key (DictReader_row names rec) = "".
Proof.
  unfold blank_imdb_id, imdb_field, row_imdb_key, row_get_imdb_id.
  intros [->|[->|[s [-> E]]]]; try reflexivity. now rewrite E.
Qed.

(** A record with a blank identifier leaves the dataset as it would be
    without that record. *)
Lemma blank_record_dropped (hdr rec : list string)
      (pre post : list (list string)) (e : reader_end) :
  blank_imdb_id (map strip hdr) rec ->
  fst (load_outcome (Readable {| pending := hdr :: pre ++ rec :: post;
                                 ending := e |}))
  = fst (load_outcome (Readable {| pending := hdr :: pre ++ post;
                                   ending := e |})).
Proof.
  intros Hb. unfold load_outcome. rewrite !read_records_eq. simpl.
  rewrite !for_records_rows. destruct e; [|reflexivity].
  rewrite !rows_of_app, rows_of_cons, !fold_left_app.
  destruct (nonblank rec); [|reflexivity]. simpl.
  unfold store at 2. now rewrite (blank_imdb_id_key _ _ Hb).
Qed.

(** ** Queries *)

Lemma rstrip_app_space (s ws : string) :
  lstrip ws = "" -> rstrip (s ++ ws) = rstrip s.
Proof.
  intros Hw.
  assert (Hr : rstrip ws = "").
  { clear s. induction ws as [|c ws IH]; simpl in *; [reflexivity|].
    destruct (isspace c); [|discriminate]. now rewrite (IH Hw). }
  induction s as [|c s IH]; simpl; [exact Hr|]. now rewrite IH.
Qed.

Lemma lstrip_app_space (s ws : string) :
  lstrip ws = "" ->
  rstrip (lstrip (s ++ ws)) = rstrip (lstrip s).
Proof.
  intros Hw. induction s as [|c s IH]; simpl.
  - rewrite Hw. reflexivity.
  - destruct (isspace c); [exact IH|].
    change (String c (s ++ ws)%string) with (String c s ++ ws)%string.
    now apply rstrip_app_space.
Qed.

(** Case, and white space around it, do not matter to the key of a
    query. *)
Lemma key_ignores_case_and_padding (ws1 ws2 a b : string) :
  lstrip ws1 = "" -> lstrip ws2 = "" -> lower a = lower b ->
  lower (strip (ws1 ++ a ++ ws2)) = lower (strip b).
Proof.
  intros H1 H2 E. unfold strip.
  rewrite (lstrip_space_app ws1 (a ++ ws2) H1), (lstrip_app_space a ws2 H2).
  change (lower (strip a) = lower (strip b)).
  now rewrite <- !strip_lower, E.
Qed.

(* ================================================================== *)
(** * The claims *)

(** C1 (as amended).  Take a process started on a file that parses to
    the end, in which only lookups have been made, and let [v] stand in
    the [imdb_id] column of one of the records, with a key
    [v.strip().lower()] that is not empty.  Then every query with that
    key (equal to [v] up to case and surrounding white space) returns
    the normalised row of the last record that carries the key, which is
    the record of [v] itself when no later record carries it.  In that
    row [imdb_id] is the trimmed field, the named keys are exactly the
    trimmed header names, every string value is trimmed, and the key
    [None] (the list of surplus fields) is there exactly when the record
    has more fields than the header. *)
Theorem C1_lookup_returns_trimmed_row
        (hdr : list string) (recs : list (list string))
        (prior : list (option string))
        (rec : list string) (v q : string) :
  let names := map strip hdr in
  let key := lower (strip v) in
  let w := run (map Lookup prior)
               (fresh (Readable {| pending := hdr :: recs;
                                   ending := StopIteration |})) in
  In rec recs ->
  imdb_field names rec = Some (VStr v) ->
  key <> "" ->
  lower (strip q) = key ->
  exists (row : Row) (pre post : list (list string))
         (last : list string) (u : string),
    fst (get_movie_by_imdb (Some q) w) = Ok (Some row)
    /\ recs = pre ++ last :: post
    /\ imdb_field names last = Some (VStr u)
    /\ lower (strip u) = key
    /\ not_carried names key post
    /\ row = normalise_row (DictReader_row names last)
    /\ (forall pre' post', recs = pre' ++ rec :: post' ->
                           not_carried names key post' ->
                           row = normalise_row (DictReader_row names rec))
    /\ row_get row (Some "imdb_id") = Some (VStr (strip u))
    /\ (forall name, In (Some name) (dict_keys row) <-> In name names)
    /\ (forall k s, In (k, VStr s) row -> strip s = s)
    /\ (In None (dict_keys row) <-> List.length hdr < List.length last).
Proof.
  intros names key w Hin Hv Hk Hq. subst names key.
  assert (Hq' : lower (strip q) <> "") by congruence.
  destruct (run_lookups_synced
              (Readable {| pending := hdr :: recs; ending := StopIteration |})
              prior) as [Hd Hc].
  fold w in Hd, Hc.
  destruct (last_carrier _ _ _ _ Hin Hv)
    as [pre [last [post [u [E [Hu [Ek Hp]]]]]]].
  destruct (normalised_row_shape (map strip hdr) last) as [Hn [Hr [Ht Hg]]].
  assert (Hl : dataset_get
                 (fst (load_outcome
                         (Readable {| pending := hdr :: recs;
                                      ending := StopIteration |})))
                 (lower (strip v))
               = Some (normalise_row (DictReader_row (map strip hdr) last))).
  { rewrite E, <- Ek. apply loaded_last; try assumption; congruence. }
  exists (normalise_row (DictReader_row (map strip hdr) last)).
  exists pre, post, last, u.
  split.
  { rewrite (lookup_synced w _ q Hd Hc Hq'), Hq, Hl. reflexivity. }
  repeat (split; [assumption|]).
  split; [reflexivity|]. split.
  { intros pre' post' E' Hp'.
    assert (Hl' : dataset_get
                    (fst (load_outcome
                            (Readable {| pending := hdr :: recs;
                                         ending := StopIteration |})))
                    (lower (strip v))
                  = Some (normalise_row (DictReader_row (map strip hdr) rec))).
    { rewrite E'. now apply loaded_last. }
    congruence. }
  split.
  { rewrite Hg. unfold imdb_field in Hu. now rewrite Hu. }
  split; [exact Hn|]. split; [exact Ht|].
  rewrite Hr. now rewrite length_map.
Qed.

(** The scenario of the specification, as the text of the file: header
    [imdb_id,title], record [ tt0111161 , The Shawn Redemption ], query
    ["TT0111161"]. *)
Lemma C1_witness :
  let f := text_file ("imdb_id,title" ++ NL
                      ++ " tt0111161 , The Shawn Redemption " ++ NL) in
  fst (get_movie_by_imdb (Some "TT0111161") (fresh f))
  = Ok (Some [(Some "imdb_id", VStr "tt0111161");
              (Some "title", VStr "The Shawn Redemption")]).
Proof.
  intros f.
  assert (E : f = Readable {| pending := [["imdb_id"; "title"];
                                          [" tt0111161 ";
                                           " The Shawn Redemption "]];
                              ending := StopIteration |})
    by (vm_compute; reflexivity).
  rewrite E.
  destruct (C1_lookup_returns_trimmed_row
              ["imdb_id"; "title"]
              [[" tt0111161 "; " The Shawn Redemption "]] []
              [" tt0111161 "; " The Shawn Redemption "]
              " tt0111161 " "TT0111161")
    as [row [pre [post [last [u [H1 [_ [_ [_ [_ [_ [H2 _]]]]]]]]]]]].
  - left. reflexivity.
  - reflexivity.
  - discriminate.
  - reflexivity.
  - simpl run in H1. rewrite H1.
    rewrite (H2 [] [] eq_refl); [reflexivity|constructor].
Defined.

(** C1 as it is written fails on a record longer than the header: the
    returned row has the key [None], which is no header name, and under
    it the list of the surplus fields, untrimmed. *)
Lemma C1_counterexample_long_record :
  let f := text_file ("imdb_id,title" ++ NL
                      ++ " tt0111161 , The Shawn Redemption , 1994 " ++ NL) in
  exists row,
    fst (get_movie_by_imdb (Some "TT0111161") (fresh f)) = Ok (Some row)
    /\ row = [(Some "imdb_id", VStr "tt0111161");
              (Some "title", VStr "The Shawn Redemption");
              (None, VList [" 1994 "])]
    /\ ~ (forall k, In k (dict_keys row) ->
                    exists name, k = Some name
                                 /\ In name (map strip ["imdb_id"; "title"])).
Proof.
  intros f. eexists. split; [vm_compute; reflexivity|].
  split; [reflexivity|].
  intros H. destruct (H None) as [name [E _]].
  - simpl. auto.
  - discriminate.
Qed.

(** C2. With the file missing, the loader (run on an empty cache slot)
    probes the path, logs one warning and returns the empty dataset as a
    value; and in a process in which the file has been missing from the
    start, [get_movie_by_imdb] returns "not found", as a value and not
    as an exception, for every identifier and after any earlier
    lookups. *)
Theorem C2_missing_file_not_found (w : world) :
  disk w = Missing ->
  cache w = None ->
  (exists w', _load_dataset w = (Ok [], w')
              /\ trace w' = trace w ++ [EvExists _dataset_path false;
                                        warning_missing])
  /\ (forall imdb_id : option string,
         exists w', get_movie_by_imdb imdb_id w = (Ok None, w'))
  /\ (forall (prior : list (option string)) (imdb_id : option string),
         fst (get_movie_by_imdb imdb_id
                (run (map Lookup prior) (fresh Missing)))
         = Ok None).
Proof.
  intros Hd Hc. split; [|split].
  - rewrite (_load_dataset_cold w Hc), Hd. simpl. eexists. split; reflexivity.
  - intros [s|]; [|now exists w].
    destruct (string_dec (lower (strip s)) "") as [E|N].
    + exists w. now apply get_movie_by_imdb_blank.
    + rewrite (get_movie_by_imdb_cold w s Hc N), Hd. simpl.
      eexists. reflexivity.
  - intros prior [s|]; [|reflexivity].
    destruct (string_dec (lower (strip s)) "") as [E|N].
    + now rewrite get_movie_by_imdb_blank.
    + destruct (run_lookups_synced Missing prior) as [Hd' Hc'].
      now rewrite (lookup_synced _ Missing s Hd' Hc' N).
Qed.

Lemma C2_witness :
  exists w', get_movie_by_imdb (Some "tt0111161") (fresh Missing)
             = (Ok None, w').
Proof.
  destruct (C2_missing_file_not_found (fresh Missing) eq_refl eq_refl)
    as [_ [H _]].
  exact (H (Some "tt0111161")).
Defined.

(** C3. When opening the file raises, or the reader raises at any point
    of the parse (whatever records it yielded before), the loader
    returns the empty dataset as a value: the exception does not reach
    the caller, the records read before it are not in the result, and
    one error record carrying the exception (with [exc_info]) is
    logged.  The memoized loader returns the same, and a lookup then
    returns a value as well. *)
Theorem C3_failed_load_is_empty (w : world) (e : exn) :
  disk w = Unopenable e
  \/ (exists recs, disk w = Readable {| pending := recs; ending := Fails e |}) ->
  exists w', _load_dataset_body w = (Ok [], w')
             /\ trace w' = trace w ++ [EvExists _dataset_path true;
                                       EvOpen _dataset_path;
                                       error_failed e]
             /\ (cache w = None ->
                 _load_dataset w = (Ok [], set_cache (Some []) w')
                 /\ forall imdb_id,
                     exists w'', get_movie_by_imdb imdb_id w = (Ok None, w'')).
Proof.
  intros H.
  assert (Ho : load_outcome (disk w)
               = ([], [EvExists _dataset_path true; EvOpen _dataset_path;
                       error_failed e])).
  { destruct H as [->|[recs ->]]; [reflexivity|].
    unfold load_outcome. rewrite read_records_eq. simpl.
    destruct recs as [|hdr p]; [reflexivity|].
    now rewrite for_records_rows. }
  exists (add_events (snd (load_outcome (disk w))) w).
  rewrite _load_dataset_body_eq. rewrite Ho. simpl.
  split; [reflexivity|]. split; [reflexivity|]. intros Hc. split.
  - rewrite (_load_dataset_cold w Hc), Ho. reflexivity.
  - intros [s|]; [|now exists w].
    destruct (string_dec (lower (strip s)) "") as [E|N].
    + exists w. now apply get_movie_by_imdb_blank.
    + rewrite (get_movie_by_imdb_cold w s Hc N), Ho. simpl.
      eexists. reflexivity.
Qed.

Lemma C3_witness :
  let e := Exception "UnicodeDecodeError" "invalid start byte" in
  let f := Readable {| pending := [["imdb_id"; "title"];
                                   ["tt0111161"; "The Shawn Redemption"]];
                       ending := Fails e |} in
  exists w', _load_dataset_body (fresh f) = (Ok [], w')
             /\ trace w' = [EvExists _dataset_path true;
                            EvOpen _dataset_path; error_failed e]
             /\ get_movie_by_imdb (Some "tt0111161") (fresh f)
                = (Ok None, set_cache (Some []) w').
Proof.
  intros e f.
  destruct (C3_failed_load_is_empty (fresh f) e) as [w' [Hb [Ht Hc]]].
  - right. eexists. reflexivity.
  - exists w'. split; [exact Hb|]. split; [exact Ht|].
    vm_compute in Hb. inversion Hb. reflexivity.
Defined.

(** C4. Memoized and idempotent: a second lookup of the same identifier
    returns the value the first one returned, whatever became of the
    file in between; and over any sequence of lookups and file changes
    without a cache clear, the file is opened at most once (and its path
    probed at most once). *)
Theorem C4_lookup_idempotent_file_read_once :
  (forall (w : world) (imdb_id : option string) (f : file_state),
      fst (get_movie_by_imdb imdb_id
             (set_disk f (snd (get_movie_by_imdb imdb_id w))))
      = fst (get_movie_by_imdb imdb_id w))
  /\ (forall (w : world) (acts : list action),
         file_reads (trace (run acts w)) <= file_reads (trace w) + 1
         /\ file_probes (trace (run acts w)) <= file_probes (trace w) + 1).
Proof.
  split; [|intros w acts; apply run_reads].
  intros w imdb_id f.
  destruct imdb_id as [s|]; [|reflexivity].
  destruct (string_dec (lower (strip s)) "") as [E|N].
  - now rewrite !get_movie_by_imdb_blank.
  - destruct (cache w) as [d|] eqn:Hc.
    + rewrite (get_movie_by_imdb_warm w d s Hc N). cbn [fst snd].
      now rewrite (get_movie_by_imdb_warm (set_disk f w) d s Hc N).
    + rewrite (get_movie_by_imdb_cold w s Hc N). cbn [fst snd].
      erewrite get_movie_by_imdb_warm; [reflexivity|reflexivity|exact N].
Qed.

(** C5. In every dataset the loader returns the keys are pairwise
    distinct; and when the file parses to the end and two of its records
    carry identifiers with the same non-empty key, the second being the
    last record to carry it, the dataset holds under that key the row of
    the second. *)
Theorem C5_last_row_wins_keys_unique (w w' : world) (d : Dataset) :
  _load_dataset_body w = (Ok d, w') ->
  NoDup (dict_keys d)
  /\ forall (hdr : list string) (pre mid post : list (list string))
            (rec1 rec2 : list string) (v1 v2 : string),
      let names := map strip hdr in
      disk w = Readable {| pending := hdr :: pre ++ rec1 :: mid
                                          ++ rec2 :: post;
                           ending := StopIteration |} ->
      imdb_field names rec1 = Some (VStr v1) ->
      imdb_field names rec2 = Some (VStr v2) ->
      lower (strip v1) = lower (strip v2) ->
      lower (strip v2) <> "" ->
      not_carried names (lower (strip v2)) post ->
      dataset_get d (lower (strip v1))
      = Some (normalise_row (DictReader_row names rec2)).
Proof.
  intros H. apply _load_dataset_body_outcome in H. subst d. split.
  - apply load_outcome_NoDup.
  - intros hdr pre mid post rec1 rec2 v1 v2 names Hd H1 H2 E Hk Hp.
    rewrite Hd, E.
    change (pre ++ rec1 :: mid ++ rec2 :: post)
      with (pre ++ (rec1 :: mid) ++ rec2 :: post).
    rewrite app_assoc. now apply loaded_last.
Qed.

Lemma C5_witness :
  let f := Readable {| pending := [["imdb_id"; "title"];
                                   ["tt0111161"; "first"];
                                   ["tt0068646"; "other"];
                                   [" TT0111161 "; "second"]];
                       ending := StopIteration |} in
  exists d, fst (_load_dataset_body (fresh f)) = Ok d
            /\ NoDup (dict_keys d)
            /\ dataset_get d "tt0111161"
               = Some [(Some "imdb_id", VStr "TT0111161");
                       (Some "title", VStr "second")].
Proof.
  intros f. eexists. split; [reflexivity|].
  destruct (C5_last_row_wins_keys_unique
              (fresh f) (snd (_load_dataset_body (fresh f)))
              (fst (load_outcome f)) eq_refl) as [Hn Hl].
  split; [exact Hn|].
  apply (Hl ["imdb_id"; "title"] [] [["tt0068646"; "other"]] []
            ["tt0111161"; "first"] [" TT0111161 "; "second"]
            "tt0111161" " TT0111161 ").
  - reflexivity.
  - reflexivity.
  - reflexivity.
  - reflexivity.
  - discriminate.
  - constructor.
Defined.

(** C6. In every dataset the loader returns each key is non-empty and in
    normal form (trimmed and lowercased), so nothing is stored under the
    empty string.  A record whose [imdb_id] field is empty, only white
    space or missing (a short record, or no such column in the header)
    is dropped: the dataset is the one the file would give without that
    record, and the row of that record is stored under no key. *)
Theorem C6_keys_nonempty_blank_rows_dropped (w w' : world) (d : Dataset) :
  _load_dataset_body w = (Ok d, w') ->
  (forall k, In k (dict_keys d) -> k <> "" /\ lower (strip k) = k)
  /\ dataset_get d "" = None
  /\ forall (hdr rec : list string) (pre post : list (list string))
            (e : reader_end),
      let names := map strip hdr in
      disk w = Readable {| pending := hdr :: pre ++ rec :: post;
                           ending := e |} ->
      blank_imdb_id names rec ->
      (forall k, dataset_get d k
                 <> Some (normalise_row (DictReader_row names rec)))
      /\ fst (_load_dataset_body
                (set_disk (Readable {| pending := hdr :: pre ++ post;
                                       ending := e |}) w))
         = Ok d.
Proof.
  intros H. apply _load_dataset_body_outcome in H. subst d.
  assert (Hkeys : forall k, In k (dict_keys (fst (load_outcome (disk w)))) ->
                            k <> "" /\ lower (strip k) = k).
  { intros k Hin. unfold dict_keys in Hin. apply in_map_iff in Hin.
    destruct Hin as [[k0 row] [E Hin]]. simpl in E. subst k0.
    destruct (loaded_entry _ _ _ Hin) as [hdr [p [rec [raw [_ [_ [_ [E [N _]]]]]]]]].
    split; [exact N|]. subst k. apply normal_form_fixed. }
  split; [exact Hkeys|]. split.
  - destruct (dataset_get _ "") as [r|] eqn:E; [|reflexivity].
    apply dict_get_In in E.
    destruct (Hkeys "") as [N _]; [|now elim N].
    unfold dict_keys. change "" with (fst ("", r)). now apply in_map.
  - intros hdr rec pre post e names Hd Hb. subst names. split.
    + intros k Hg. apply dict_get_In in Hg.
      destruct (loaded_entry _ _ _ Hg)
        as [hdr' [p [rec' [raw [Hf [_ [Hv [Hk [N Hr]]]]]]]]].
      rewrite Hd in Hf. inversion Hf; subst hdr' p.
      assert (Hg' : row_get (normalise_row
                               (DictReader_row (map strip hdr) rec))
                            (Some "imdb_id") = Some (VStr (strip raw))).
      { rewrite Hr.
        destruct (normalised_row_shape (map strip hdr) rec')
          as [_ [_ [_ ->]]].
        unfold imdb_field in Hv. now rewrite Hv. }
      destruct (normalised_row_shape (map strip hdr) rec)
        as [_ [_ [_ Hn]]].
      rewrite Hn in Hg'. unfold blank_imdb_id, imdb_field in Hb.
      destruct Hb as [Hb|[Hb|[s [Hb Hs]]]]; rewrite Hb in Hg';
        simpl in Hg'; try discriminate.
      inversion Hg' as [E]. apply N. rewrite Hk, <- E, Hs. reflexivity.
    + rewrite _load_dataset_body_eq. simpl. rewrite Hd. f_equal.
      symmetry. now apply blank_record_dropped.
Qed.

Lemma C6_witness :
  let f := Readable {| pending := [["imdb_id"; "title"];
                                   ["tt0111161"; "kept"];
                                   ["   "; "blank"];
                                   []; [""; "empty"]];
                       ending := StopIteration |} in
  let d := [("tt0111161", [(Some "imdb_id", VStr "tt0111161");
                           (Some "title", VStr "kept")])] in
  fst (_load_dataset_body (fresh f)) = Ok d
  /\ dataset_get d "" = None
  /\ (forall k, dataset_get d k
                <> Some [(Some "imdb_id", VStr ""); (Some "title", VStr "blank")]).
Proof.
  intros f d. split; [reflexivity|].
  destruct (C6_keys_nonempty_blank_rows_dropped
              (fresh f) (snd (_load_dataset_body (fresh f))) d eq_refl)
    as [_ [He Hb]].
  split; [exact He|].
  destruct (Hb ["imdb_id"; "title"] ["   "; "blank"]
               [["tt0111161"; "kept"]] [[]; [""; "empty"]] StopIteration)
    as [Hn _].
  - reflexivity.
  - right. right. exists "   ". split; reflexivity.
  - exact Hn.
Defined.

(** C7. For an identifier that is [None], the empty string or only white
    space (its key [strip().lower()] is empty), [get_movie_by_imdb]
    returns "not found" and leaves the whole process as it was: the cache
    slot is unchanged and the trace gains no event, so the loader did not
    run and no file was read. *)
Theorem C7_blank_identifier_touches_nothing
        (w : world) (imdb_id : option string) :
  imdb_id = None \/ (exists s, imdb_id = Some s /\ lower (strip s) = "") ->
  get_movie_by_imdb imdb_id w = (Ok None, w).
Proof.
  intros [->|[s [-> H]]].
  - reflexivity.
  - now apply get_movie_by_imdb_blank.
Qed.

Lemma C7_witness :
  let w := {| disk := Missing;
              cache := Some [("tt1", [(Some "imdb_id", VStr "tt1")])];
              trace := [EvExists _dataset_path true] |} in
  get_movie_by_imdb (Some (String "009" "  ")) w = (Ok None, w).
Proof.
  intros w.
  apply (C7_blank_identifier_touches_nothing w (Some (String "009" "  "))).
  right. exists (String "009" "  "). split; reflexivity.
Defined.

(** C8. [clear_dataset_cache] empties the cache slot and changes nothing
    else.  The next lookup then answers from the file as it is at that
    moment, exactly as a fresh process would, whatever the slot held
    before; when that lookup reaches the dataset (its key is not empty:
    a blank identifier returns before the loader is asked) the loader
    runs again, the path is probed once more and the file, if there,
    opened once more.  Clearing is idempotent, and clearing an empty
    slot leaves the process as it was. *)
Theorem C8_clear_then_lookup_reloads (w : world) :
  let w1 := snd (clear_dataset_cache w) in
  fst (clear_dataset_cache w) = Ok tt
  /\ cache w1 = None /\ disk w1 = disk w /\ trace w1 = trace w
  /\ (forall (f : file_state) (q : option string),
         fst (get_movie_by_imdb q (set_disk f w1))
         = fst (get_movie_by_imdb q (fresh f)))
  /\ (forall (f : file_state) (s : string),
         lower (strip s) <> "" ->
         exists d w2,
           _load_dataset_body (set_disk f w1) = (Ok d, w2)
           /\ get_movie_by_imdb (Some s) (set_disk f w1)
              = (Ok (dataset_get d (lower (strip s))), set_cache (Some d) w2)
           /\ file_probes (trace w2) = S (file_probes (trace w))
           /\ (f <> Missing ->
               file_reads (trace w2) = S (file_reads (trace w))))
  /\ snd (clear_dataset_cache w1) = w1
  /\ (cache w = None -> w1 = w).
Proof.
  intros w1. do 4 (split; [reflexivity|]). split; [|split; [|split]].
  - intros f [q|]; [|reflexivity].
    destruct (string_dec (lower (strip q)) "") as [E|N].
    + now rewrite !get_movie_by_imdb_blank.
    + rewrite !get_movie_by_imdb_cold by (try exact N; reflexivity).
      reflexivity.
  - intros f s Hs. eexists. eexists.
    split; [apply _load_dataset_body_eq|]. split; [|split].
    + rewrite get_movie_by_imdb_cold by (try exact Hs; reflexivity).
      reflexivity.
    + simpl. rewrite file_probes_app.
      destruct (load_outcome_reads f) as [_ ->]. lia.
    + intros Hf. simpl. rewrite file_reads_app.
      destruct f as [|e|c]; [now elim Hf| |]; simpl; [lia|].
      destruct (read_records c); simpl; lia.
  - reflexivity.
  - intros Hc. destruct w as [f c t]. simpl in Hc. subst c. reflexivity.
Qed.

(** The file is rewritten under a filled cache, then the cache is
    cleared: the lookup after the clear opens the file a second time. *)
Lemma C8_witness :
  let file title :=
    Readable {| pending := [["imdb_id"; "title"]; ["tt0111161"; title]];
                ending := StopIteration |} in
  let row title :=
    [(Some "imdb_id", VStr "tt0111161"); (Some "title", VStr title)] in
  let w1 := snd (get_movie_by_imdb (Some "tt0111161") (fresh (file "old"))) in
  let w2 := set_disk (file "new") w1 in
  fst (get_movie_by_imdb (Some "tt0111161") w2) = Ok (Some (row "old"))
  /\ fst (get_movie_by_imdb (Some "tt0111161")
            (set_disk (file "new") (snd (clear_dataset_cache w2))))
     = Ok (Some (row "new"))
  /\ file_reads (trace w2) = 1
  /\ exists d w3,
      get_movie_by_imdb (Some "tt0111161")
        (set_disk (file "new") (snd (clear_dataset_cache w2)))
      = (Ok (dataset_get d "tt0111161"), set_cache (Some d) w3)
      /\ file_reads (trace w3) = 2.
Proof.
  intros file row w1 w2.
  destruct (C8_clear_then_lookup_reloads w2)
    as [_ [_ [_ [_ [Hf [Hr _]]]]]].
  split; [reflexivity|]. split.
  - rewrite (Hf (file "new") (Some "tt0111161")). reflexivity.
  - split; [reflexivity|].
    destruct (Hr (file "new") "tt0111161") as [d [w3 [_ [Hg [_ Ho]]]]].
    + discriminate.
    + exists d, w3. split; [exact Hg|]. apply Ho. discriminate.
Defined.

(** C9. Every entry [(k, row)] of a dataset the loader returns comes
    from a record of the file whose [imdb_id] field held a string [raw]:
    [row] is the normalised row of that record, its field [imdb_id] is
    [raw] trimmed (and trimming it again changes nothing) with the case
    of the file, and lowercasing that value gives [k]. *)
Theorem C9_key_row_coherence
        (w w' : world) (d : Dataset) (k : string) (row : Row) :
  _load_dataset_body w = (Ok d, w') ->
  dataset_get d k = Some row ->
  exists (hdr : list string) (recs : list (list string))
         (rec : list string) (raw : string),
    disk w = Readable {| pending := hdr :: recs; ending := StopIteration |}
    /\ In rec recs
    /\ imdb_field (map strip hdr) rec = Some (VStr raw)
    /\ row = normalise_row (DictReader_row (map strip hdr) rec)
    /\ row_get row (Some "imdb_id") = Some (VStr (strip raw))
    /\ strip (strip raw) = strip raw
    /\ lower (strip raw) = k.
Proof.
  intros H Hg. apply _load_dataset_body_outcome in H. subst d.
  apply dict_get_In in Hg.
  destruct (loaded_entry _ _ _ Hg)
    as [hdr [p [rec [raw [Hf [Hin [Hv [Hk [_ Hr]]]]]]]]].
  exists hdr, p, rec, raw. repeat split; try assumption.
  - rewrite Hr.
    destruct (normalised_row_shape (map strip hdr) rec) as [_ [_ [_ ->]]].
    unfold imdb_field in Hv. now rewrite Hv.
  - apply strip_idem.
  - now symmetry.
Qed.

Lemma C9_witness :
  let f := Readable {| pending := [["imdb_id"; "title"];
                                   [" TT0111161 "; "The Shawn Redemption"]];
                       ending := StopIteration |} in
  let row := [(Some "imdb_id", VStr "TT0111161");
              (Some "title", VStr "The Shawn Redemption")] in
  fst (_load_dataset_body (fresh f)) = Ok [("tt0111161", row)]
  /\ exists raw, row_get row (Some "imdb_id") = Some (VStr (strip raw))
                 /\ strip raw = "TT0111161"
                 /\ lower (strip raw) = "tt0111161".
Proof.
  intros f row. split; [reflexivity|].
  destruct (C9_key_row_coherence
              (fresh f) (snd (_load_dataset_body (fresh f)))
              [("tt0111161", row)] "tt0111161" row eq_refl eq_refl)
    as [hdr [recs [rec [raw [_ [_ [_ [_ [Hg [_ Hk]]]]]]]]]].
  exists raw. split; [exact Hg|]. split; [|exact Hk].
  simpl in Hg. now inversion Hg.
Defined.

(** C10. The empty dataset of a missing file or of a failed load is
    memoized like any other: after the lookup that ran the loader, the
    cache slot holds the empty dataset, and over any later lookups and
    changes of the file (the file created, or repaired) every lookup
    returns "not found" without a single new event, so the disk is not
    looked at again; only after [clear_dataset_cache] does a lookup see
    the file as it then is, exactly as a fresh process would. *)
Theorem C10_empty_dataset_is_memoized (w : world) (s : string) :
  cache w = None ->
  lower (strip s) <> "" ->
  disk w = Missing
  \/ (exists e, disk w = Unopenable e)
  \/ (exists recs e,
         disk w = Readable {| pending := recs; ending := Fails e |}) ->
  let w1 := snd (get_movie_by_imdb (Some s) w) in
  cache w1 = Some []
  /\ (forall (acts : list action) (q : option string),
         get_movie_by_imdb q (run acts w1) = (Ok None, run acts w1)
         /\ trace (run acts w1) = trace w1)
  /\ (forall (f : file_state) (q : option string),
         fst (get_movie_by_imdb q
                (snd (clear_dataset_cache (set_disk f w1))))
         = fst (get_movie_by_imdb q (fresh f))).
Proof.
  intros Hc Hs Hd w1.
  assert (Ho : fst (load_outcome (disk w)) = []).
  { destruct Hd as [->|[[e ->]|[recs [e ->]]]]; try reflexivity.
    unfold load_outcome. rewrite read_records_eq. simpl.
    destruct recs as [|hdr p]; [reflexivity|].
    now rewrite for_records_rows. }
  assert (H1 : cache w1 = Some []).
  { unfold w1. rewrite (get_movie_by_imdb_cold w s Hc Hs), Ho. reflexivity. }
  split; [exact H1|]. split.
  - intros acts q. destruct (run_warm acts w1 [] H1) as [Hc2 Ht2].
    split; [|exact Ht2].
    destruct q as [q|]; [|reflexivity].
    destruct (string_dec (lower (strip q)) "") as [E|N].
    + now apply get_movie_by_imdb_blank.
    + now rewrite (get_movie_by_imdb_warm _ [] q Hc2 N).
  - intros f q. destruct q as [q|]; [|reflexivity].
    destruct (string_dec (lower (strip q)) "") as [E|N].
    + now rewrite !get_movie_by_imdb_blank.
    + rewrite !get_movie_by_imdb_cold by (try exact N; reflexivity).
      reflexivity.
Qed.

Lemma C10_witness :
  let w1 := snd (get_movie_by_imdb (Some "tt0111161") (fresh Missing)) in
  cache w1 = Some []
  /\ (forall (acts : list action) (q : option string),
         get_movie_by_imdb q (run acts w1) = (Ok None, run acts w1)
         /\ trace (run acts w1) = trace w1)
  /\ (forall (f : file_state) (q : option string),
         fst (get_movie_by_imdb q
                (snd (clear_dataset_cache (set_disk f w1))))
         = fst (get_movie_by_imdb q (fresh f))).
Proof.
  apply (C10_empty_dataset_is_memoized (fresh Missing) "tt0111161").
  - reflexivity.
  - discriminate.
  - left. reflexivity.
Defined.

(** A file that appears after the first lookup found none. *)
Example missing_file_created_later :
  let later := Readable {| pending := [["imdb_id"]; ["tt0111161"]];
                           ending := StopIteration |} in
  let w1 := snd (get_movie_by_imdb (Some "tt0111161") (fresh Missing)) in
  let w2 := set_disk later w1 in
  get_movie_by_imdb (Some "tt0111161") w2 = (Ok None, w2)
  /\ fst (get_movie_by_imdb (Some "tt0111161")
            (snd (clear_dataset_cache w2)))
     = Ok (Some [(Some "imdb_id", VStr "tt0111161")]).
Proof. split; reflexivity. Qed.

(* ================================================================== *)
(** * Further properties of the module *)

(** ** Lookups as a function of the key *)

(** What a lookup returns and what it leaves behind, in every process. *)
Lemma lookup_eq (w : world) (q : option string) :
  get_movie_by_imdb q w
  = (Ok (match query_key q with
         | EmptyString => None
         | k => dataset_get (dataset_seen w) k
         end),
     after_lookup (query_key q) w).
Proof.
  unfold dataset_seen, after_lookup.
  destruct q as [s|]; [|reflexivity]. simpl query_key.
  destruct (lower (strip s)) as [|c k] eqn:E.
  - rewrite (get_movie_by_imdb_blank w s E). now destruct (cache w).
  - assert (N : lower (strip s) <> "") by (rewrite E; discriminate).
    destruct (cache w) as [d|] eqn:Hc.
    + rewrite (get_movie_by_imdb_warm w d s Hc N), E. reflexivity.
    + rewrite (get_movie_by_imdb_cold w s Hc N), E. reflexivity.
Qed.

Lemma dataset_seen_after_lookup (k : string) (w : world) :
  dataset_seen (after_lookup k w) = dataset_seen w.
Proof.
  unfold dataset_seen, after_lookup.
  destruct k; destruct (cache w) eqn:E; simpl; rewrite ?E; reflexivity.
Qed.

Lemma after_lookup_comm (k1 k2 : string) (w : world) :
  after_lookup k1 (after_lookup k2 w) = after_lookup k2 (after_lookup k1 w).
Proof.
  unfold after_lookup.
  destruct k1, k2; destruct (cache w) eqn:E; simpl; rewrite ?E; reflexivity.
Qed.



(** X2. A lookup depends on the identifier through its key only: two
    identifiers that differ in case and in white space around them get
    the same answer and leave the same process behind, be the identifier
    in the dataset or not. *)
Theorem X2_lookup_ignores_case_and_padding
        (w : world) (ws1 ws2 a b : string) :
  lstrip ws1 = "" ->
  lstrip ws2 = "" ->
  lower a = lower b ->
  get_movie_by_imdb (Some (ws1 ++ a ++ ws2)%string) w
  = get_movie_by_imdb (Some b) w.
Proof.
  intros H1 H2 E. rewrite !lookup_eq. simpl query_key.
  now rewrite (key_ignores_case_and_padding ws1 ws2 a b H1 H2 E).
Qed.

Lemma X2_witness :
  let f := Readable {| pending := [["imdb_id"; "title"];
                                   ["tt0111161"; "The Shawn Redemption"]];
                       ending := StopIteration |} in
  get_movie_by_imdb (Some (String "009" " Tt0111161  ")) (fresh f)
  = get_movie_by_imdb (Some "tt0111161") (fresh f).
Proof.
  intros f.
  apply (X2_lookup_ignores_case_and_padding
           (fresh f) (String "009" " ") "  " "Tt0111161" "tt0111161");
    reflexivity.
Defined.

(** X8. The order of two lookups does not matter: each gets the same
    answer whether it comes first or second, and the process ends in
    the same state, trace included. *)
Theorem X8_lookup_order_irrelevant (w : world) (q1 q2 : option string) :
  let w1 := snd (get_movie_by_imdb q1 w) in
  let w2 := snd (get_movie_by_imdb q2 w) in
  fst (get_movie_by_imdb q1 w) = fst (get_movie_by_imdb q1 w2)
  /\ fst (get_movie_by_imdb q2 w) = fst (get_movie_by_imdb q2 w1)
  /\ snd (get_movie_by_imdb q2 w1) = snd (get_movie_by_imdb q1 w2).
Proof.
  cbv zeta. rewrite !lookup_eq. cbn [fst snd].
  rewrite !dataset_seen_after_lookup.
  repeat split. apply after_lookup_comm.
Qed.

(** ** The diagnostics of a load *)


(** ** Which identifiers a file gives *)

Lemma dict_get_not_in {K V : Type}
      (K_eq_dec : forall x y : K, {x = y} + {x <> y})
      (d : dict K V) (k : K) :
  ~ In k (dict_keys d) -> dict_get K_eq_dec d k = None.
Proof.
  unfold dict_keys. induction d as [|[k0 v0] d IH]; simpl; intros H.
  - reflexivity.
  - destruct (K_eq_dec k k0) as [E|N]; [exfalso; apply H; now left|].
    apply IH. intros Hin. apply H. now right.
Qed.

Lemma fold_store_blank (rows : list Row) (d : Dataset) :
  Forall (fun row => row_imdb_key row = "") rows ->
  fold_left store rows d = d.
Proof.
  revert d. induction rows as [|row rows IH]; simpl; intros d H.
  - reflexivity.
  - inversion H as [|? ? E H']; subst. rewrite IH by exact H'.
    unfold store. now rewrite E.
Qed.

Lemma fold_store_keys (rows : list Row) (d : Dataset) (k : string) :
  In k (dict_keys (fold_left store rows d))
  <-> In k (dict_keys d) \/ In k (filter truthy (map row_imdb_key rows)).
Proof.
  revert d. induction rows as [|row rows IH]; simpl; intros d.
  - tauto.
  - rewrite IH. unfold store at 1.
    destruct (truthy (row_imdb_key row)) eqn:E; simpl.
    + unfold dataset_set. rewrite dict_keys_set. intuition.
    + tauto.
Qed.

(** A record carries the key [k]. *)
Lemma carried_keys_In (names : list string) (recs : list (list string))
      (k : string) :
  In k (carried_keys names recs)
  <-> k <> ""
      /\ exists rec v, In rec recs
                       /\ imdb_field names rec = Some (VStr v)
                       /\ lower (strip v) = k.
Proof.
  unfold carried_keys, rows_of. rewrite filter_In, in_map_iff. split.
  - intros [[row [E Hin]] Ht]. apply truthy_true_iff in Ht.
    split; [exact Ht|].
    apply in_map_iff in Hin. destruct Hin as [rec [<- Hin]].
    apply filter_In in Hin. destruct Hin as [Hin _].
    destruct (row_imdb_key_cases names rec) as [E'|[v [Hv E']]];
      [congruence|].
    exists rec, v. repeat split; [exact Hin|exact Hv|congruence].
  - intros [Hk [rec [v [Hin [Hv E]]]]]. split.
    + exists (DictReader_row names rec). split.
      * rewrite (imdb_field_key names rec v Hv). exact E.
      * apply in_map. apply filter_In. split; [exact Hin|].
        exact (imdb_field_nonblank names rec v Hv).
    + now apply truthy_true_iff.
Qed.

(** X3. In a process that has only made lookups on a file that parses
    to the end, an identifier is found exactly when a record of the
    file carries it: a lookup returns a row when some record holds, in
    its [imdb_id] field, a string with the key of the query (and that
    key is not empty), and "not found" in every other case. *)
Theorem X3_found_iff_carried
        (hdr : list string) (recs : list (list string))
        (prior : list (option string)) (q : string) :
  let names := map strip hdr in
  let w := run (map Lookup prior)
               (fresh (Readable {| pending := hdr :: recs;
                                   ending := StopIteration |})) in
  let carried :=
    lower (strip q) <> ""
    /\ exists rec v, In rec recs
                     /\ imdb_field names rec = Some (VStr v)
                     /\ lower (strip v) = lower (strip q) in
  (carried -> exists row, fst (get_movie_by_imdb (Some q) w) = Ok (Some row))
  /\ (~ carried -> fst (get_movie_by_imdb (Some q) w) = Ok None).
Proof.
  cbv zeta.
  destruct (run_lookups_synced
              (Readable {| pending := hdr :: recs; ending := StopIteration |})
              prior) as [Hd Hc].
  split.
  - intros [Hk [rec [v [Hin [Hv E]]]]].
    destruct (last_carrier _ _ _ _ Hin Hv)
      as [pre [last [post [u [Er [Hu [Ek Hp]]]]]]].
    rewrite (lookup_synced _ _ q Hd Hc Hk), Er, <- E, <- Ek.
    rewrite loaded_last; [eexists; reflexivity|exact Hu|congruence|].
    now rewrite Ek.
  - intros Hn.
    destruct (string_dec (lower (strip q)) "") as [E|N].
    + now rewrite get_movie_by_imdb_blank.
    + rewrite (lookup_synced _ _ q Hd Hc N), load_outcome_rows.
      rewrite fold_store_get_other; [reflexivity|].
      apply not_carried_rows; [exact N|].
      apply Forall_forall. intros rec Hin u Hu E. apply Hn.
      split; [exact N|]. now exists rec, u.
Qed.

(** X4. The identifier column is found by its exact name, after
    trimming only: when the header has no column whose trimmed name is
    [imdb_id] (a name in another case, a blank first line, which makes
    an empty header, or no line at all), no record is kept.  The load
    still succeeds, with an empty dataset and a DEBUG record of 0
    entries. *)
Theorem X4_no_imdb_id_column_no_entry
        (w : world) (recs : list (list string)) :
  disk w = Readable {| pending := recs; ending := StopIteration |} ->
  match recs with
  | [] => True
  | hdr :: _ => ~ In "imdb_id" (map strip hdr)
  end ->
  exists w', _load_dataset_body w = (Ok [], w')
             /\ trace w' = trace w ++ [EvExists _dataset_path true;
                                       EvOpen _dataset_path;
                                       debug_loaded 0].
Proof.
  intros Hd Hh.
  assert (Ho : fst (load_outcome (disk w)) = []).
  { rewrite Hd. destruct recs as [|hdr p]; [reflexivity|].
    rewrite load_outcome_rows. apply fold_store_blank.
    apply Forall_forall. intros row Hin. unfold rows_of in Hin.
    apply in_map_iff in Hin. destruct Hin as [rec [<- _]].
    unfold row_imdb_key, row_get_imdb_id, row_get.
    rewrite dict_get_not_in; [reflexivity|].
    now rewrite DictReader_row_names. }
  rewrite _load_dataset_body_eq. eexists. split.
  - now rewrite Ho.
  - unfold add_events. cbn [trace]. f_equal.
    rewrite Hd in *. unfold load_outcome in *.
    destruct (read_records _) as [d|e] eqn:Er.
    + simpl in Ho. now subst d.
    + exfalso. rewrite read_records_eq in Er. simpl in Er.
      destruct recs as [|hdr p]; [discriminate|].
      rewrite for_records_rows in Er. discriminate.
Qed.

Lemma X4_witness :
  let f := Readable {| pending := [["IMDB_ID"; "title"];
                                   ["tt0111161"; "The Shawn Redemption"]];
                       ending := StopIteration |} in
  exists w', _load_dataset_body (fresh f) = (Ok [], w')
             /\ trace w' = [EvExists _dataset_path true;
                            EvOpen _dataset_path; debug_loaded 0].
Proof.
  intros f. apply (X4_no_imdb_id_column_no_entry (fresh f) _ eq_refl).
  simpl. intros [H|[H|[]]]; discriminate.
Defined.

(** X6. When the reader reaches the end of the file the load succeeds:
    the keys of the dataset are exactly the non-empty keys the records
    carry, so the number of entries, which is the number the DEBUG
    record reports, is the number of distinct such keys, and at most
    the number of records after the header. *)
Theorem X6_entries_are_the_distinct_keys
        (w : world) (hdr : list string) (recs : list (list string)) :
  disk w = Readable {| pending := hdr :: recs; ending := StopIteration |} ->
  let names := map strip hdr in
  exists d w',
    _load_dataset_body w = (Ok d, w')
    /\ trace w' = trace w ++ [EvExists _dataset_path true;
                              EvOpen _dataset_path;
                              debug_loaded (List.length d)]
    /\ (forall k, In k (dict_keys d) <-> In k (carried_keys names recs))
    /\ List.length d
       = List.length (nodup string_dec (carried_keys names recs))
    /\ List.length d <= List.length recs.
Proof.
  intros Hd names.
  assert (Hk : forall k, In k (dict_keys (fst (load_outcome (disk w))))
                         <-> In k (carried_keys names recs)).
  { intros k. rewrite Hd, load_outcome_rows, fold_store_keys.
    unfold carried_keys, names. simpl. tauto. }
  assert (Hn := load_outcome_NoDup (disk w)).
  assert (Hl : List.length (fst (load_outcome (disk w)))
               = List.length (dict_keys (fst (load_outcome (disk w)))))
    by (unfold dict_keys; now rewrite length_map).
  exists (fst (load_outcome (disk w))). eexists.
  split; [apply _load_dataset_body_eq|]. split; [|split; [exact Hk|split]].
  - unfold add_events. cbn [trace]. f_equal.
    rewrite Hd. unfold load_outcome. rewrite read_records_eq. simpl.
    rewrite for_records_rows. reflexivity.
  - rewrite Hl. apply Nat.le_antisymm; apply NoDup_incl_length.
    + exact Hn.
    + intros k Hin. apply nodup_In. now apply Hk.
    + apply NoDup_nodup.
    + intros k Hin. apply nodup_In in Hin. now apply Hk.
  - rewrite Hl.
    transitivity (List.length (carried_keys names recs)).
    + apply NoDup_incl_length; [exact Hn|]. intros k Hin. now apply Hk.
    + unfold carried_keys, rows_of.
      eapply Nat.le_trans; [apply filter_length_le|].
      rewrite !length_map. apply filter_length_le.
Qed.

Lemma X6_witness :
  let f := Readable {| pending := [["imdb_id"; "title"];
                                   ["tt0111161"; "first"];
                                   [""; "no identifier"];
                                   ["tt0068646"; "other"];
                                   [];
                                   [" TT0111161 "; "second"]];
                       ending := StopIteration |} in
  exists d w',
    _load_dataset_body (fresh f) = (Ok d, w')
    /\ trace w' = [EvExists _dataset_path true; EvOpen _dataset_path;
                   debug_loaded 2]
    /\ dict_keys d = ["tt0111161"; "tt0068646"].
Proof.
  intros f.
  destruct (X6_entries_are_the_distinct_keys
              (fresh f) ["imdb_id"; "title"]
              [["tt0111161"; "first"]; [""; "no identifier"];
               ["tt0068646"; "other"]; []; [" TT0111161 "; "second"]]
              eq_refl)
    as [d [w' [Hb [Ht _]]]].
  exists d, w'. split; [exact Hb|].
  assert (Ed : d = fst (load_outcome f)).
  { rewrite _load_dataset_body_eq in Hb. now inversion Hb. }
  rewrite Ed in Ht |- *. split; [exact Ht|reflexivity].
Defined.

(** ** What a lookup can return *)

(** In every process the module can be in, the dataset a lookup reads
    is the one the loader makes of some file. *)
Lemma reachable_dataset_seen (w : world) :
  reachable w -> exists f, dataset_seen w = fst (load_outcome f).
Proof.
  induction 1 as [f|w q _ [f IH]|w _ _|w f' _ [f IH]].
  - now exists f.
  - exists f. rewrite lookup_eq. cbn [snd].
    now rewrite dataset_seen_after_lookup.
  - now exists (disk w).
  - unfold dataset_seen in *. simpl.
    destruct (cache w); [now exists f|now exists f'].
Qed.

(** X7. Whatever the history of the process (lookups, cache clears and
    changes of the file, in any order), a row that a lookup returns is
    a row for the identifier asked: its field [imdb_id] is a trimmed
    string whose lowercase form is the key of the query, and every
    string value of the row is trimmed. *)
Theorem X7_returned_row_is_for_the_query
        (w : world) (s : string) (row : Row) :
  reachable w ->
  fst (get_movie_by_imdb (Some s) w) = Ok (Some row) ->
  exists v,
    row_get row (Some "imdb_id") = Some (VStr v)
    /\ lower v = lower (strip s)
    /\ strip v = v
    /\ (forall k u, In (k, VStr u) row -> strip u = u).
Proof.
  intros Hr Hg. rewrite lookup_eq in Hg. cbn [fst query_key] in Hg.
  destruct (reachable_dataset_seen w Hr) as [f Ef]. rewrite Ef in Hg.
  destruct (lower (strip s)) as [|c k] eqn:Ek; [discriminate|].
  inversion Hg as [Hd]. apply dict_get_In in Hd.
  destruct (loaded_entry _ _ _ Hd)
    as [hdr [p [rec [raw [_ [_ [Hv [Hk [_ Erow]]]]]]]]].
  destruct (normalised_row_shape (map strip hdr) rec) as [_ [_ [Ht Hget]]].
  exists (strip raw). subst row. repeat split.
  - rewrite Hget. unfold imdb_field in Hv. now rewrite Hv.
  - now symmetry.
  - apply strip_idem.
  - exact Ht.
Qed.

Lemma X7_witness :
  let file id :=
    Readable {| pending := [["imdb_id"; "title"]; [id; " The Shawn Redemption"]];
                ending := StopIteration |} in
  let w := set_disk (file "tt0068646")
             (snd (get_movie_by_imdb (Some "tt0111161")
                     (snd (clear_dataset_cache
                             (snd (get_movie_by_imdb None
                                     (fresh (file " TT0111161")))))))) in
  let row := [(Some "imdb_id", VStr "TT0111161");
              (Some "title", VStr "The Shawn Redemption")] in
  reachable w
  /\ fst (get_movie_by_imdb (Some " tt0111161") w) = Ok (Some row)
  /\ exists v,
      row_get row (Some "imdb_id") = Some (VStr v)
      /\ lower v = lower (strip " tt0111161")
      /\ strip v = v
      /\ (forall k u, In (k, VStr u) row -> strip u = u).
Proof.
  intros file w row.
  assert (Hr : reachable w)
    by apply reachable_disk, reachable_lookup, reachable_clear,
         reachable_lookup, reachable_fresh.
  split; [exact Hr|]. split; [reflexivity|].
  apply (X7_returned_row_is_for_the_query w " tt0111161" row Hr).
  reflexivity.
Defined.

(** ** The value of a column *)

Section FillFacts.
Context {K V : Type} (K_eq_dec : forall x y : K, {x = y} + {x <> y}).

Lemma fill_app (d : dict K V) (l1 l2 : list (K * V)) :
  fill K_eq_dec d (l1 ++ l2) = fill K_eq_dec (fill K_eq_dec d l1) l2.
Proof. unfold fill. apply fold_left_app. Qed.

Lemma dict_get_fill_other (d : dict K V) (l : list (K * V)) (k : K) :
  ~ In k (map fst l) ->
  dict_get K_eq_dec (fill K_eq_dec d l) k = dict_get K_eq_dec d k.
Proof.
  unfold fill. revert d. induction l as [|[k0 v0] l IH]; simpl; intros d H.
  - reflexivity.
  - rewrite IH by (intros Hin; apply H; now right).
    apply dict_get_set_other. intros E. apply H. now left.
Qed.

(** The last pair with a key decides what is stored under it. *)
Lemma dict_get_fill_last (d : dict K V) (l1 l2 : list (K * V)) (k : K) (v : V) :
  ~ In k (map fst l2) ->
  dict_get K_eq_dec (fill K_eq_dec d (l1 ++ (k, v) :: l2)) k = Some v.
Proof.
  intros H. rewrite fill_app.
  change ((k, v) :: l2) with ([(k, v)] ++ l2). rewrite fill_app.
  rewrite dict_get_fill_other by exact H.
  unfold fill. simpl. apply dict_get_set_same.
Qed.

End FillFacts.

Lemma combine_middle {A B} (a b : list A) (x : A) (r1 r2 : list B) (y : B) :
  List.length r1 = List.length a ->
  combine (a ++ x :: b) (r1 ++ y :: r2)
  = combine a r1 ++ (x, y) :: combine b r2.
Proof.
  revert r1. induction a as [|a0 a IH]; intros [|y0 r1] H; simpl in *;
    try discriminate.
  - reflexivity.
  - f_equal. apply IH. now inversion H.
Qed.

Lemma in_skipn {A} (n : nat) (l : list A) (x : A) :
  In x (skipn n l) -> In x l.
Proof.
  intros H. rewrite <- (firstn_skipn n l). apply in_or_app. now right.
Qed.

Lemma not_in_map_Some (l : list string) (name : string) :
  ~ In name l -> ~ In (Some name) (map Some l).
Proof.
  intros H Hin. apply in_map_iff in Hin. destruct Hin as [x [E Hx]].
  inversion E. now subst.
Qed.

(** The field a [DictReader] row holds under a column name: the field
    of the record at the place of the last column with that name, or
    [None] when the record does not reach that place. *)
Lemma DictReader_row_column (a b : list string) (name : string)
      (rec : list string) :
  ~ In name b ->
  row_get (DictReader_row (a ++ name :: b) rec) (Some name)
  = Some (if (List.length a <? List.length rec)%nat
          then VStr (nth (List.length a) rec "")
          else VNone).
Proof.
  intros Hb. rewrite DictReader_row_fill. cbv zeta. unfold row_get.
  destruct (List.length a <? List.length rec)%nat eqn:Ei.
  - apply Nat.ltb_lt in Ei.
    destruct (nth_split rec "" Ei) as [r1 [r2 [Er Hl]]].
    assert (Hd : dict_get row_key_eq_dec
                   (fill row_key_eq_dec []
                      (combine (map Some (a ++ name :: b)) (map VStr rec)))
                   (Some name)
                 = Some (VStr (nth (List.length a) rec ""))).
    { rewrite Er at 1. rewrite !map_app. simpl map.
      rewrite combine_middle by (rewrite !length_map; exact Hl).
      apply dict_get_fill_last. intros Hin.
      apply in_map_iff in Hin. destruct Hin as [[k v] [E Hin]].
      simpl in E. subst k. apply in_combine_l in Hin.
      now apply (not_in_map_Some b name Hb). }
    destruct (_ <? _)%nat eqn:El.
    + rewrite dict_get_fill_other; [exact Hd|].
      simpl. intros [H|[]]. discriminate.
    + rewrite dict_get_fill_other; [exact Hd|].
      rewrite map_map. simpl. apply not_in_map_Some.
      intros Hin. apply Hb.
      rewrite skipn_app in Hin. apply in_app_or in Hin.
      destruct Hin as [Hin|Hin].
      * rewrite skipn_all2 in Hin by lia. contradiction.
      * destruct (List.length rec - List.length a) as [|m] eqn:Em; [lia|].
        simpl in Hin. now apply in_skipn in Hin.
  - apply Nat.ltb_ge in Ei.
    assert (El : (List.length (a ++ name :: b) <? List.length rec)%nat = false).
    { apply Nat.ltb_ge. rewrite length_app. simpl. lia. }
    rewrite El. rewrite skipn_app.
    replace (List.length rec - List.length a) with 0 by lia.
    simpl skipn.
    rewrite (map_app (fun key : string => (Some key, VNone))).
    change (map (fun key : string => (Some key, VNone)) (name :: b))
      with ((Some name, VNone)
            :: map (fun key : string => (Some key, VNone)) b).
    apply dict_get_fill_last. rewrite map_map. simpl.
    now apply not_in_map_Some.
Qed.

(** X9. The fields of a record come back under their column names: in
    the row a lookup returns for the record that carries the
    identifier, the value under a column name is the record's field at
    the place of the last header column with that (trimmed) name,
    trimmed; it is [None] when the record is too short to reach that
    place. *)
Theorem X9_row_holds_the_trimmed_fields
        (hdr : list string) (pre post : list (list string))
        (rec a b : list string) (v name : string) :
  let names := map strip hdr in
  let f := Readable {| pending := hdr :: pre ++ rec :: post;
                       ending := StopIteration |} in
  imdb_field names rec = Some (VStr v) ->
  lower (strip v) <> "" ->
  not_carried names (lower (strip v)) post ->
  names = a ++ name :: b ->
  ~ In name b ->
  exists row,
    fst (get_movie_by_imdb (Some v) (fresh f)) = Ok (Some row)
    /\ row_get row (Some name)
       = Some (if (List.length a <? List.length rec)%nat
               then VStr (strip (nth (List.length a) rec ""))
               else VNone).
Proof.
  intros names f Hv Hk Hp En Hb.
  exists (normalise_row (DictReader_row names rec)). split.
  - rewrite (get_movie_by_imdb_cold (fresh f) v eq_refl Hk). cbn [fst].
    unfold f, fresh. cbn [disk].
    now rewrite (loaded_last hdr pre post rec v Hv Hk Hp).
  - destruct (normalised_row_shape names rec) as [_ [_ [_ ->]]].
    rewrite En, (DictReader_row_column a b name rec Hb).
    now destruct (_ <? _)%nat.
Qed.

Lemma X9_witness :
  let f := Readable {| pending := [[" imdb_id"; "title "; "year"; "title"];
                                   ["tt0111161"; "old title"; " 1994 ";
                                    " The Shawn Redemption "];
                                   ["tt0068646"; "short"]];
                       ending := StopIteration |} in
  exists row,
    fst (get_movie_by_imdb (Some "tt0068646") (fresh f)) = Ok (Some row)
    /\ row_get row (Some "title") = Some VNone.
Proof.
  intros f.
  apply (X9_row_holds_the_trimmed_fields
           [" imdb_id"; "title "; "year"; "title"]
           [["tt0111161"; "old title"; " 1994 "; " The Shawn Redemption "]]
           [] ["tt0068646"; "short"]
           ["imdb_id"; "title"; "year"] [] "tt0068646" "title").
  - reflexivity.
  - discriminate.
  - constructor.
  - reflexivity.
  - intros [].
Defined.

(** ** The place of the dataset *)

(** X10. The dataset lies beside the module's package directory: for a
    module file [dir/pkg/file] the path is [dir] joined with the fixed
    file name, whatever the names of the package directory and of the
    module file; it has one component less than the module file.  A
    module file directly under the root has no such directory, and
    computing the path raises [IndexError]. *)
Theorem X10_dataset_beside_the_package :
  (forall (dir : resolved_path) (pkg file : string),
      _dataset_path_at (dir ++ [pkg; file])
      = Ok (dir ++ [_DATASET_FILENAME]))
  /\ (forall (module_file p : resolved_path),
         _dataset_path_at module_file = Ok p ->
         S (List.length p) = List.length module_file
         /\ last p "" = _DATASET_FILENAME
         /\ exists pkg file,
             module_file = removelast p ++ [pkg; file])
  /\ (forall module_file : resolved_path,
         List.length module_file < 2 ->
         _dataset_path_at module_file = Raise (Exception "IndexError" "1")).
Proof.
  assert (H1 : forall (dir : resolved_path) (pkg file : string),
             _dataset_path_at (dir ++ [pkg; file])
             = Ok (dir ++ [_DATASET_FILENAME])).
  { intros dir pkg file.
    unfold _dataset_path_at, path_at, _dataset_path, Path_parents,
      Path_truediv.
    rewrite length_app. simpl List.length.
    replace (1 <? List.length dir + 2)%nat with true
      by (symmetry; apply Nat.ltb_lt; lia).
    replace (List.length dir + 2 - 2) with (List.length dir + 0) by lia.
    now rewrite firstn_app_2, app_nil_r. }
  split; [exact H1|]. split.
  - intros module_file p H.
    destruct (le_lt_dec 2 (List.length module_file)) as [Hl|Hl].
    + assert (Em : exists dir pkg file, module_file = dir ++ [pkg; file]).
      { destruct (exists_last (l := module_file)) as [l1 [file E1]];
          [intros E; subst; simpl in Hl; lia|]. subst module_file.
        destruct (exists_last (l := l1)) as [dir [pkg E2]];
          [intros E; subst; simpl in Hl; lia|]. subst l1.
        exists dir, pkg, file. now rewrite <- app_assoc. }
      destruct Em as [dir [pkg [file ->]]].
      rewrite H1 in H. inversion H; subst p.
      rewrite !length_app. simpl. split; [lia|].
      split; [apply last_last|].
      exists pkg, file. now rewrite removelast_last.
    + exfalso. unfold _dataset_path_at, path_at, _dataset_path, Path_parents in H.
      replace (1 <? List.length module_file)%nat with false in H
        by (symmetry; apply Nat.ltb_ge; lia).
      discriminate.
  - intros module_file Hl.
    unfold _dataset_path_at, path_at, _dataset_path, Path_parents.
    replace (1 <? List.length module_file)%nat with false
      by (symmetry; apply Nat.ltb_ge; lia).
    reflexivity.
Qed.

(** ** The dataset between two cache clears *)

(** X11. Once the cache slot is filled, the dataset is fixed until the
    cache is cleared: after any lookups and any changes of the file,
    every lookup still gets the answer it would have got at once, the
    slot holds the same dataset, and the trace has not grown, so that
    neither the path nor the file was touched again. *)
Theorem X11_dataset_fixed_until_clear
        (w : world) (d : Dataset) (acts : list action)
        (imdb_id : option string) :
  cache w = Some d ->
  get_movie_by_imdb imdb_id (run acts w)
  = (fst (get_movie_by_imdb imdb_id w), run acts w)
  /\ cache (run acts w) = Some d
  /\ trace (run acts w) = trace w.
Proof.
  intros Hc. destruct (run_warm acts w d Hc) as [Hc' Ht].
  split; [|now split].
  rewrite !lookup_eq. cbn [fst].
  unfold dataset_seen, after_lookup. rewrite Hc, Hc'.
  now destruct (query_key imdb_id).
Qed.

Lemma X11_witness :
  let file title :=
    Readable {| pending := [["imdb_id"; "title"]; ["tt0111161"; title]];
                ending := StopIteration |} in
  let w := snd (get_movie_by_imdb (Some "tt0111161") (fresh (file "old"))) in
  let acts := [DiskChange Missing; Lookup (Some "tt0068646");
               DiskChange (file "new"); Lookup None] in
  fst (get_movie_by_imdb (Some "TT0111161") (run acts w))
  = Ok (Some [(Some "imdb_id", VStr "tt0111161"); (Some "title", VStr "old")])
  /\ trace (run acts w) = trace w.
Proof.
  intros file w acts.
  destruct (X11_dataset_fixed_until_clear
              w [("tt0111161",
                  [(Some "imdb_id", VStr "tt0111161");
                   (Some "title", VStr "old")])]
              acts (Some "TT0111161") eq_refl) as [Hg [_ Ht]].
  split; [|exact Ht]. rewrite Hg. reflexivity.
Defined.
